(** * Movie recommendation system: data cleaning and TMDB client

    A shallow embedding of [src/data_loader.py] ([clean_data]) and of
    [src/api_client.py] ([_handle_request], [search_movie],
    [map_movielens_to_tmdb]), with the properties the specification
    states about them. *)

From Stdlib Require Import ZArith QArith String Ascii List Lia PrimFloat.
From stdpp Require Import base option list gmap strings pretty.

Local Open Scope Z_scope.

(** ** data_loader.py *)

Module DataLoader.

(** One line of [ratings.csv]: [userId,movieId,rating,timestamp].  The
    two identifier columns are integer columns; the rating is a multiple
    of one half. *)
Record rating_row := RatingRow {
  userId : Z;
  movieId : Z;
  rating : Q;
  timestamp : Z
}.

(** A DataFrame of ratings, as its rows in order. *)
Abbreviation ratings_table := (list rating_row).

(** [Series.value_counts()]: every value of the column with the number
    of rows that carry it. *)
Fixpoint value_counts (col : list Z) : gmap Z Z :=
  match col with
  | [] => ∅
  | x :: rest =>
      let counts := value_counts rest in
      <[x := 1 + default 0 (counts !! x)]> counts
  end.

(** [counts[counts >= threshold].index]: the values whose count reaches
    the threshold. *)
Definition frequent (counts : gmap Z Z) (threshold : Z) : gset Z :=
  dom (filter (λ kv, threshold ≤ kv.2) counts).

(** [clean_data(ratings, min_ratings=10, min_users=10)]. *)
Definition clean_data (ratings : ratings_table) (min_ratings min_users : Z)
  : ratings_table :=
  let movie_counts := value_counts (movieId <$> ratings) in
  let ratings :=
    filter (λ r, movieId r ∈ frequent movie_counts min_ratings) ratings in
  let user_counts := value_counts (userId <$> ratings) in
  let ratings :=
    filter (λ r, userId r ∈ frequent user_counts min_users) ratings in
  ratings.

(** The table after the movie filter alone (line 93). *)
Definition movie_filtered (ratings : ratings_table) (min_ratings : Z)
  : ratings_table :=
  filter (λ r, movieId r ∈ frequent (value_counts (movieId <$> ratings)) min_ratings)
         ratings.

(** Number of rows of a table that carry a given identifier. *)
Definition rows_of_movie (m : Z) (t : ratings_table) : Z :=
  Z.of_nat (length (filter (λ r, movieId r = m) t)).

Definition rows_of_user (u : Z) (t : ratings_table) : Z :=
  Z.of_nat (length (filter (λ r, userId r = u) t)).

(** Occurrences of a value in a column. *)
Definition occurrences (x : Z) (col : list Z) : Z :=
  Z.of_nat (length (filter (λ y, y = x) col)).

(** A table on which the two filters interact: movies 1..10, users
    1..11.  Users 1..9 rate every movie, user 10 rates movies 2..10 and
    user 11 rates movie 1 only. *)
Definition grid_row (u m : Z) : rating_row := RatingRow u m (4 # 1) 964982703.

Definition grid_table : ratings_table :=
  (u ← Z.of_nat <$> seq 1 9; m ← Z.of_nat <$> seq 1 10; [grid_row u m])
  ++ (m ← Z.of_nat <$> seq 2 9; [grid_row 10 m])
  ++ [grid_row 11 1].

(** Ten ratings of one movie by one user. *)
Definition tiny_table : ratings_table := replicate 10 (grid_row 1 1).

End DataLoader.

(** ** api_client.py *)

Module ApiClient.

Local Open Scope string_scope.
Local Open Scope Z_scope.
Local Set Warnings "-register-all".

(** *** Python values *)

(** The values [response.json()] and [json.load] produce: [None],
    [bool], [int], [float], [str], [list] and [dict] with string keys. *)
Inductive json :=
  | JNull
  | JBool (b : bool)
  | JInt (n : Z)
  | JFloat (x : PrimFloat.float)
  | JStr (s : string)
  | JArr (items : list json)
  | JObj (fields : gmap string json).

(** Truth value of an object, as [if result] and [if results] test it. *)
Definition truthy (v : json) : bool :=
  match v with
  | JNull => false
  | JBool b => b
  | JInt n => negb (n =? 0)
  | JFloat x => negb (PrimFloat.eqb x PrimFloat.zero)
  | JStr s => negb (String.eqb s EmptyString)
  | JArr items => negb (Nat.eqb (length items) 0)
  | JObj fields => negb (Nat.eqb (size fields) 0)
  end.

(** The exceptions the client can meet.  [RequestException] stands for
    [requests.RequestException] and every subclass of it (connection
    errors, timeouts, and the JSON decoding error of [Response.json]). *)
Inductive exn :=
  | RequestException (what : string)
  | ValueError
  | OverflowError
  | RecursionError
  | TypeError
  | AttributeError
  | KeyError
  | IndexError
  | OSError.

Inductive result (A : Type) :=
  | Ret (a : A)
  | Raise (e : exn).
Arguments Ret {A} a.
Arguments Raise {A} e.

(** *** The world the client runs in *)

(** What [json.loads] makes of the body of an answer: the document it
    holds; or the decoding error of a text that is no JSON document; or
    the plain [ValueError] of an integer literal with more digits than
    [int] converts; or the [RecursionError] of arrays and objects nested
    deeper than the interpreter's stack allows. *)
Inductive decoding :=
  | Document (body : json)
  | Undecodable
  | IntegerTooLong
  | NestedTooDeep.

(** A [requests.Response].  [headers] is the store of the
    case-insensitive dictionary, keyed by lower-cased header names;
    [decoded] is what decoding the body as JSON comes to. *)
Record response := Response {
  status_code : Z;
  headers : gmap string string;
  text : string;
  url : string;
  decoded : decoding
}.

(** The document the body of an answer holds, [None] when decoding it
    gives none. *)
Definition json_body (r : response) : option json :=
  match decoded r with
  | Document body => Some body
  | _ => None
  end.

(** What one [requests.get] does: it answers, or raises a
    [RequestException]. *)
Inductive outcome :=
  | Responds (r : response)
  | Fails (what : string).

Inductive log_level := DEBUG | WARNING | ERROR.

(** The records the module logs, by their format string. *)
Inductive log_record :=
  | RequestURL (url : string)
  | RateLimited (retry_after : Z)
  | RequestFailed (what : string)
  | ApiError (status : Z) (text : string)
  | ExceededMaxRetries.

(** Observable actions, in the order they happen. *)
Inductive event :=
  | Get (url : string) (params : gmap string string)
  | Sleep (secs : Q)
  | Log (level : log_level) (record : log_record).

(** An entry of the file system: a directory, or a file with the JSON
    document its text holds ([None] when the text is not JSON). *)
Inductive fsnode :=
  | Directory
  | File (document : option json).

(** A result list together with the identity of the list object. *)
Record obj := Obj { oid : nat; value : json }.

(** The state of the process and of its environment. [heap] holds the
    [dict] objects used as [params], by identity; [fresh] is the next
    unused object identity; [sent] counts the requests issued. *)
Record world := World {
  trace : list event;
  sent : nat;
  heap : gmap nat (gmap string string);
  fresh : nat;
  search_movie_cache : list (string * obj);
  fs : gmap string fsnode
}.

Definition with_trace (f : list event → list event) (w : world) : world :=
  World (f (trace w)) (sent w) (heap w) (fresh w) (search_movie_cache w) (fs w).
Definition with_sent (n : nat) (w : world) : world :=
  World (trace w) n (heap w) (fresh w) (search_movie_cache w) (fs w).
Definition with_heap (h : gmap nat (gmap string string)) (w : world) : world :=
  World (trace w) (sent w) h (fresh w) (search_movie_cache w) (fs w).
Definition with_fresh (n : nat) (w : world) : world :=
  World (trace w) (sent w) (heap w) n (search_movie_cache w) (fs w).
Definition with_cache (c : list (string * obj)) (w : world) : world :=
  World (trace w) (sent w) (heap w) (fresh w) c (fs w).
Definition with_fs (f : gmap string fsnode) (w : world) : world :=
  World (trace w) (sent w) (heap w) (fresh w) (search_movie_cache w) f.

(** A process that has just imported the module, on a given file system. *)
Definition start (files : gmap string fsnode) : world :=
  World [] 0 ∅ 0 [] files.

(** *** Computations: state and exceptions *)

Definition M (A : Type) : Type := world → result A * world.

Definition ret {A} (a : A) : M A := λ w, (Ret a, w).
Definition raise {A} (e : exn) : M A := λ w, (Raise e, w).
Definition bind {A B} (c : M A) (k : A → M B) : M B := λ w,
  match c w with
  | (Ret a, w') => k a w'
  | (Raise e, w') => (Raise e, w')
  end.

Declare Scope py_scope.
Delimit Scope py_scope with py.
Notation "x <- c ;; k" := (bind c (λ x, k))
  (at level 100, c at next level, right associativity) : py_scope.
Notation "c ;;; k" := (bind c (λ _, k))
  (at level 100, right associativity) : py_scope.
Local Open Scope py_scope.

(** [try: body except E: handler], where [handles] says which
    exceptions are instances of [E]. *)
Definition try_except {A} (body : M A) (handles : exn → bool)
    (handler : exn → M A) : M A := λ w,
  match body w with
  | (Ret a, w') => (Ret a, w')
  | (Raise e, w') => if handles e then handler e w' else (Raise e, w')
  end.

Definition is_RequestException (e : exn) : bool :=
  match e with RequestException _ => true | _ => false end.

Definition emit (e : event) : M unit := λ w,
  (Ret tt, with_trace (λ t, t ++ [e])%list w).

Definition logger (level : log_level) (record : log_record) : M unit :=
  emit (Log level record).

(** [time.sleep(secs)] (CPython 3.5 and later).  The length is first
    turned into a signed 64-bit count of nanoseconds, with
    [OverflowError] when it does not fit: whole seconds fit from
    -9223372036 to 9223372036.  A negative length that fits raises
    [ValueError].  Any other length is handed to the operating system. *)
Definition fits_clock (secs : Q) : bool :=
  let ns := (secs * inject_Z 1000000000)%Q in
  Qle_bool (inject_Z (- 2 ^ 63)) ns && Qle_bool ns (inject_Z (2 ^ 63 - 1)).

Definition time_sleep (secs : Q) : M unit :=
  if negb (fits_clock secs) then raise OverflowError
  else if Qle_bool 0 secs then emit (Sleep secs)
  else raise ValueError.

(** The operating system can refuse a length close to the end of its
    clock (Linux answers [EINVAL], an [OSError], once the deadline passes
    it); whether it does depends on the platform and on how long it has
    been running, and [time_sleep] leaves it out.  Sleeps of up to
    [LONGEST_SLEEP] seconds (2^32 milliseconds, 49 days) are far from
    that end, and the statements that need a sleep to take place are
    about such lengths. *)
Definition LONGEST_SLEEP : Z := 4294967.

(** *** Strings *)

(** [str.lower], on the ASCII letters. *)
Definition lower_ascii (c : ascii) : ascii :=
  let n := nat_of_ascii c in
  if ((65 <=? n) && (n <=? 90))%nat then ascii_of_nat (n + 32) else c.

Fixpoint lower (s : string) : string :=
  match s with
  | EmptyString => EmptyString
  | String c s' => String (lower_ascii c) (lower s')
  end.

(** White space as [int] skips it around a number, in a text of
    Latin-1 characters as a header value is: tab, line feed, vertical
    tab, form feed, carriage return and space, and the two spaces U+0085
    and U+00A0.  The separators U+001C to U+001F are not skipped, though
    [str.strip] removes them. *)
Definition is_space (c : ascii) : bool :=
  let n := nat_of_ascii c in
  ((9 <=? n) && (n <=? 13) || (n =? 32) || (n =? 133) || (n =? 160))%nat.

Fixpoint lstrip (s : string) : string :=
  match s with
  | EmptyString => EmptyString
  | String c s' => if is_space c then lstrip s' else s
  end.

Definition strip (s : string) : string :=
  String.rev (lstrip (String.rev (lstrip s))).


Definition digit_value (c : ascii) : option Z :=
  let n := nat_of_ascii c in
  if ((48 <=? n) && (n <=? 57))%nat then Some (Z.of_nat n - 48) else None.

(** Decimal digits, with single underscores allowed between digits.
    [after_digit] says whether the previous character was a digit. *)
Fixpoint py_digits (acc : Z) (after_digit : bool) (s : string) : option Z :=
  match s with
  | EmptyString => if after_digit then Some acc else None
  | String c s' =>
      if Ascii.eqb c "_"
      then (if after_digit then py_digits acc false s' else None)
      else match digit_value c with
           | Some d => py_digits (10 * acc + d) true s'
           | None => None
           end
  end.

(** The integer a text denotes: optional white space, an optional sign,
    decimal digits, optional white space; [None] for any other text. *)
Definition int_literal (s : string) : option Z :=
  match strip s with
  | String "+" s' => py_digits 0 false s'
  | String "-" s' => Z.opp <$> py_digits 0 false s'
  | s' => py_digits 0 false s'
  end.

(** The interpreter converts no text of more than 4300 digits
    ([sys.get_int_max_str_digits()], CPython 3.11 and the security
    releases of 3.7 to 3.10); leading zeros count, signs, underscores and
    white space do not. *)
Definition MAX_STR_DIGITS : nat := 4300.

Fixpoint digit_count (s : string) : nat :=
  match s with
  | EmptyString => 0
  | String c s' =>
      match digit_value c with
      | Some _ => S (digit_count s')
      | None => digit_count s'
      end
  end.

(** [int(s)] for a string [s]; [None] stands for its [ValueError], on a
    text that denotes no integer or has too many digits.  Integers are
    unbounded. *)
Definition py_int (s : string) : option Z :=
  if (digit_count s <=? MAX_STR_DIGITS)%nat then int_literal s else None.

(** [s.split(sep)] for a non-empty separator.  [skip] counts the
    characters of a separator still to be passed over, [piece] holds
    the current piece in reverse. *)
Fixpoint split_go (sep : string) (skip : nat) (piece : string) (s : string)
  : list string :=
  match s with
  | EmptyString => [String.rev piece]
  | String c s' =>
      match skip with
      | S k => split_go sep k piece s'
      | O =>
          if String.prefix sep s
          then String.rev piece :: split_go sep (String.length sep - 1) EmptyString s'
          else split_go sep 0 (String c piece) s'
      end
  end.

Definition py_split (sep s : string) : list string := split_go sep 0 EmptyString s.

(** [l[0]] on the list a split returns, which is never empty. *)
Definition first_piece (pieces : list string) : string :=
  match pieces with
  | piece :: _ => piece
  | [] => EmptyString
  end.

(** The text before the first occurrence of [sep], all of [s] when
    there is none. *)
Fixpoint before_first (sep s : string) : string :=
  match s with
  | EmptyString => EmptyString
  | String c s' =>
      if String.prefix sep s then EmptyString else String c (before_first sep s')
  end.

(** *** The module *)

Definition BASE_URL : string := "https://api.themoviedb.org/3".
Definition RETRIES : Z := 3.
Definition WAIT_TIME : Z := 1.

(** One line of [movies.csv]: [movieId,title,genres]. *)
Record movie_row := MovieRow {
  movieId : Z;
  title : string;
  genres : string
}.

(** What [map_movielens_to_tmdb] returns: the document read from the
    cache file, or the dictionary it built, keyed by [movieId]. *)
Inductive id_mapping :=
  | Loaded (document : json)
  | Built (mapping : gmap Z json).

Definition cache_file : string := "data/processed/movieId_tmdbId_map.json".

(** [os.path.dirname], [None] for a name without a slash. *)
Fixpoint dirname (path : string) : option string :=
  match path with
  | EmptyString => None
  | String c rest =>
      match dirname rest with
      | Some d => Some (String c d)
      | None => if Ascii.eqb c "/" then Some EmptyString else None
      end
  end.

(** The document [json.dump(mapping, f, indent=2)] writes: an object
    whose keys are the decimal texts of the integer keys. *)
Definition dumped (mapping : gmap Z json) : json :=
  JObj (list_to_map ((λ kv : Z * json, (pretty kv.1, kv.2)) <$> map_to_list mapping)).

(** [os.path.exists(path)]. *)
Definition os_path_exists (path : string) : M bool := λ w,
  (Ret (bool_decide (is_Some (fs w !! path))), w).

(** [with open(path, "r") as f: json.load(f)]. *)
Definition json_load_file (path : string) : M json := λ w,
  match fs w !! path with
  | Some (File (Some document)) => (Ret document, w)
  | Some (File None) => (Raise ValueError, w)
  | Some Directory => (Raise OSError, w)
  | None => (Raise OSError, w)
  end.

(** [with open(path, "w") as f: json.dump(mapping, f, indent=2)]: the
    directory of the file has to exist. *)
Definition json_dump_file (mapping : gmap Z json) (path : string) : M unit := λ w,
  let writable :=
    match fs w !! path, dirname path with
    | Some Directory, _ => false
    | _, None => true
    | _, Some dir =>
        match fs w !! dir with
        | Some Directory => true
        | _ => false
        end
    end in
  if writable
  then (Ret tt, with_fs (<[path := File (Some (dumped mapping))]> (fs w)) w)
  else (Raise OSError, w).

(** [v[0]]. *)
Definition first_item (v : json) : M json :=
  match v with
  | JArr (x :: _) => ret x
  | JArr [] => raise IndexError
  | JStr (String c _) => ret (JStr (String c EmptyString))
  | JStr EmptyString => raise IndexError
  | JObj _ => raise KeyError
  | _ => raise TypeError
  end.

(** [v["id"]]. *)
Definition item_id (v : json) : M json :=
  match v with
  | JObj fields =>
      match fields !! "id" with
      | Some x => ret x
      | None => raise KeyError
      end
  | _ => raise TypeError
  end.

Section Client.

(** The key read from the environment when the module is imported. *)
Variable TMDB_API_KEY : string.

(** The network: what the [n]-th [requests.get] of the process does,
    given the address and the query parameters. *)
Variable transport : nat → string → gmap string string → outcome.

(** [requests.get(url, params=params)], [params] being a reference to a
    dictionary. *)
Definition requests_get (url : string) (params : nat) : M response := λ w,
  let query := default ∅ (heap w !! params) in
  let w' := with_sent (S (sent w)) (with_trace (λ t, t ++ [Get url query])%list w) in
  match transport (sent w) url query with
  | Responds r => (Ret r, w')
  | Fails what => (Raise (RequestException what), w')
  end.

(** [response.json()]: it turns the decoding error of [json.loads] into
    its own, which derives from [RequestException] (requests 2.27 and
    later), and lets the other two errors of [json.loads] through. *)
Definition response_json (r : response) : M json :=
  match decoded r with
  | Document body => ret body
  | Undecodable => raise (RequestException "JSONDecodeError")
  | IntegerTooLong => raise ValueError
  | NestedTooDeep => raise RecursionError
  end.

(** [int(response.headers.get("Retry-After", 1))]; [None] stands for
    the [ValueError] of [int]. *)
Definition retry_after_seconds (r : response) : option Z :=
  match headers r !! lower "Retry-After" with
  | None => Some 1
  | Some s => py_int s
  end.

Definition retry_after_of (r : response) : M Z :=
  match retry_after_seconds r with
  | Some n => ret n
  | None => raise ValueError
  end.

(** The [try] block of one iteration (lines 37 to 47).  [Some v] is
    [return v]; [None] falls through to the next iteration. *)
Definition attempt (url : string) (params : nat) : M (option json) :=
  response <- requests_get url params;;
  logger DEBUG (RequestURL (ApiClient.url response));;;
  if status_code response =? 429 then
    retry_after <- retry_after_of response;;
    logger WARNING (RateLimited retry_after);;;
    time_sleep (inject_Z retry_after);;;
    ret None
  else if status_code response =? 200 then
    body <- response_json response;;
    ret (Some body)
  else
    logger ERROR (ApiError (status_code response) (text response));;;
    ret (Some JNull).

(** The [except requests.RequestException] clause (lines 48 to 50). *)
Definition on_request_exception (e : exn) : M (option json) :=
  logger WARNING
    (RequestFailed match e with RequestException what => what | _ => EmptyString end);;;
  time_sleep (inject_Z WAIT_TIME);;;
  ret None.

(** The body of the loop: the [try] statement of lines 36 to 50. *)
Definition iteration (url : string) (params : nat) : M (option json) :=
  try_except (attempt url params) is_RequestException on_request_exception.

(** [for attempt in range(n)] with the two statements after the loop. *)
Fixpoint attempts (n : nat) (url : string) (params : nat) : M json :=
  match n with
  | O =>
      logger ERROR ExceededMaxRetries;;;
      ret JNull
  | S n' =>
      returned <- iteration url params;;
      match returned with
      | Some v => ret v
      | None => attempts n' url params
      end
  end.

(** [{...}]: a new dictionary object. *)
Definition new_dict (d : gmap string string) : M nat := λ w,
  (Ret (fresh w), with_fresh (S (fresh w)) (with_heap (<[fresh w := d]> (heap w)) w)).

(** [d[key] = v] on the dictionary that [d] refers to. *)
Definition dict_setitem (d : nat) (key v : string) : M unit := λ w,
  (Ret tt, with_heap (alter (insert key v) d (heap w)) w).

(** [_handle_request(endpoint, params=None)]; [params] is [None] or a
    reference to the caller's dictionary.  The value [None] the function
    returns is [JNull]. *)
Definition _handle_request (endpoint : string) (params : option nat) : M json :=
  params <- match params with
            | None => new_dict ∅
            | Some d => ret d
            end;;
  dict_setitem params "api_key" TMDB_API_KEY;;;
  let url := BASE_URL ++ endpoint in
  attempts (Z.to_nat RETRIES) url params.

(** *** The memoised search *)

(** A new list object holding [v]. *)
Definition new_obj (v : json) : M obj := λ w,
  (Ret (Obj (fresh w) v), with_fresh (S (fresh w)) w).

(** [result.get("results", [])]: only a dictionary has [get]. *)
Definition get_results (result : json) : M obj :=
  match result with
  | JObj fields =>
      match fields !! "results" with
      | Some v => new_obj v
      | None => new_obj (JArr [])
      end
  | _ => raise AttributeError
  end.

(** The body of [search_movie] (lines 58 and 59). *)
Definition search_movie_body (title : string) : M obj :=
  params <- new_dict {[ "query" := title ]};;
  result <- _handle_request "/search/movie" (Some params);;
  if truthy result then get_results result else new_obj (JArr []).

(** [functools.lru_cache(maxsize=500)]: the cache lists its entries
    from the most to the least recently used. *)
Definition MAXSIZE : nat := 500.

Fixpoint lru_find (key : string) (cache : list (string * obj)) : option obj :=
  match cache with
  | [] => None
  | (k, v) :: rest => if String.eqb k key then Some v else lru_find key rest
  end.

Definition lru_touch (key : string) (v : obj) (cache : list (string * obj))
  : list (string * obj) :=
  (key, v) :: filter (λ e, e.1 ≠ key) cache.

Definition lru_store (key : string) (v : obj) (cache : list (string * obj))
  : list (string * obj) :=
  take MAXSIZE ((key, v) :: cache).

(** [search_movie] as decorated: a hit returns the stored object and
    makes it the most recent entry; a miss runs the body and stores
    what it returns, dropping the least recent entry of a full cache;
    an exception of the body stores nothing. *)
Definition search_movie (title : string) : M obj := λ w,
  match lru_find title (search_movie_cache w) with
  | Some v => (Ret v, with_cache (lru_touch title v (search_movie_cache w)) w)
  | None =>
      match search_movie_body title w with
      | (Ret v, w') =>
          (Ret v, with_cache (lru_store title v (search_movie_cache w')) w')
      | (Raise e, w') => (Raise e, w')
      end
  end.

(** *** The identifier mapping *)

(** The body of the loop over the rows (lines 84 to 89); it returns
    the dictionary [mapping] as the iteration leaves it. *)
Definition map_row (row : movie_row) (mapping : gmap Z json)
  : M (gmap Z json) :=
  let title := first_piece (py_split " (" (title row)) in
  let movie_id := movieId row in
  results <- search_movie title;;
  mapping <- (if truthy (value results)
              then first <- first_item (value results);;
                   id <- item_id first;;
                   ret (<[movie_id := id]> mapping)
              else ret mapping);;
  time_sleep (1 # 4);;;
  ret mapping.

(** [for _, row in movies_df.iterrows()]. *)
Fixpoint map_rows (rows : list movie_row) (mapping : gmap Z json)
  : M (gmap Z json) :=
  match rows with
  | [] => ret mapping
  | row :: rest =>
      mapping <- map_row row mapping;;
      map_rows rest mapping
  end.

(** [map_movielens_to_tmdb(movies_df)]. *)
Definition map_movielens_to_tmdb (movies_df : list movie_row) : M id_mapping :=
  cached <- os_path_exists cache_file;;
  if cached : bool then
    document <- json_load_file cache_file;;
    ret (Loaded document)
  else
    mapping <- map_rows movies_df ∅;;
    json_dump_file mapping cache_file;;;
    ret (Built mapping).

(** *** Vocabulary of the statements *)

(** Lines 30 to 32 alone: the dictionary the request uses, with the key
    added. *)
Definition bind_params (params : option nat) : M nat :=
  params <- match params with
            | None => new_dict ∅
            | Some d => ret d
            end;;
  dict_setitem params "api_key" TMDB_API_KEY;;;
  ret params.

(** The dictionary reference a call uses and the world when its loop
    starts. *)
Definition params_ref (params : option nat) (w : world) : nat :=
  match params with
  | None => fresh w
  | Some d => d
  end.

Definition entered (params : option nat) (w : world) : world :=
  (bind_params params w).2.

(** The query parameters a request made in [w] sends. *)
Definition query (params : nat) (w : world) : gmap string string :=
  default ∅ (heap w !! params).

(** The world once [k] more requests have been issued and [events]
    have happened; nothing else has changed. *)
Definition after_requests (k : nat) (events : list event) (w : world) : world :=
  with_sent (k + sent w)%nat (with_trace (λ t, t ++ events)%list w).

(** The world after [k] iterations that each fell through to the next
    one; [None] when one of them returned or raised. *)
Fixpoint retried (k : nat) (url : string) (params : nat) (w : world)
  : option world :=
  match k with
  | O => Some w
  | S k' =>
      match iteration url params w with
      | (Ret None, w') => retried k' url params w'
      | _ => None
      end
  end.

(** The world after a sequence of searches, whatever each returns. *)
Definition search_many (titles : list string) (w : world) : world :=
  fold_left (λ w title, (search_movie title w).2) titles w.

End Client.

(** *** Sample networks and inputs *)

Definition http_date : string := "Wed, 21 Oct 2015 07:28:00 GMT".

(** The sample answers carry no [text]: the client reads it only to
    log an answer that is neither 200 nor 429. *)

(** A server that answers 429 with a date in [Retry-After]. *)
Definition throttled_until_date : nat → string → gmap string string → outcome :=
  λ _ url _, Responds (Response 429 {[ "retry-after" := http_date ]} EmptyString url Undecodable).

(** A server that answers 429 with [Retry-After: 7] once, then 200. *)
Definition toy_story : json :=
  JObj {[ "results" := JArr [JObj {[ "id" := JInt 862 ]}] ]}.


(** A network that is down, one that answers 404, one that always
    finds Toy Story and one that never finds anything. *)
Definition unreachable : nat → string → gmap string string → outcome :=
  λ _ _ _, Fails "ConnectionError".

Definition not_found : nat → string → gmap string string → outcome :=
  λ _ url _, Responds (Response 404 ∅ "Not Found" url Undecodable).

Definition finds_toy_story : nat → string → gmap string string → outcome :=
  λ _ url _, Responds (Response 200 ∅ EmptyString url (Document toy_story)).

Definition finds_nothing : nat → string → gmap string string → outcome :=
  λ _ url _, Responds (Response 200 ∅ EmptyString url (Document (JObj {[ "results" := JArr [] ]}))).

(** Toy Story is found, nothing else is. *)
Definition finds_only_toy_story : nat → string → gmap string string → outcome :=
  λ _ url q,
    if bool_decide (q !! "query" = Some "Toy Story")
    then Responds (Response 200 ∅ EmptyString url (Document toy_story))
    else Responds (Response 200 ∅ EmptyString url (Document (JObj {[ "results" := JArr [] ]}))).

Definition processed : gmap string fsnode := {[ "data/processed" := Directory ]}.

Definition two_movies : list movie_row :=
  [MovieRow 1 "Toy Story (1995)" "Adventure|Animation";
   MovieRow 2 "Jumanji (1995)" "Adventure|Children"].

(** The address and the query of a search made with the key ["k"] and
    no parameter of the caller. *)
Definition search_url : string := BASE_URL ++ "/search/movie".
Definition key_only : gmap string string := {[ "api_key" := "k" ]}.

(** A process in which the caller holds the dictionary
    [{"query": "Toy Story"}] at reference 0. *)
Definition caller_world : world :=
  World [] 0 {[ 0%nat := {[ "query" := "Toy Story" ]} ]} 1 [] ∅.

(** A file system on which an earlier run left its mapping. *)
Definition cached_mapping : json := JObj {[ "1" := JInt 862 ]}.

Definition with_cache_file : gmap string fsnode :=
  <[ cache_file := File (Some cached_mapping) ]> processed.

(** Five hundred titles, none of them ["0"]. *)
Definition other_titles : list string := (pretty <$> seq 1 500)%list.


End ApiClient.

(** ** Further vocabulary for api_client.py *)

Module ClientNotions.
Import ApiClient.

Local Open Scope string_scope.
Local Open Scope Z_scope.

Definition is_get (e : event) : bool :=
  match e with
  | Get _ _ => true
  | _ => false
  end.

(** The number of requests among some events. *)
Definition requests_in (events : list event) : nat :=
  length (filter (λ e, is_get e = true) events).

(** What one call of [_handle_request] can do: requests to its address
    with its query, sleeps of a whole number of seconds, log records. *)
Definition call_event (url : string) (q : gmap string string) (e : event) : Prop :=
  match e with
  | Get u p => u = url ∧ p = q
  | Sleep secs => ∃ d, 0 ≤ d ∧ secs = inject_Z d
  | Log _ _ => True
  end.

(** The query of the request [search_movie] makes for a title. *)
Definition search_query (key title : string) : gmap string string :=
  <["api_key" := key]> {[ "query" := title ]}.

(** The world in which [search_movie] calls [_handle_request]: its
    dictionary [{"query": title}] is allocated. *)
Definition search_started (title : string) (w : world) : world :=
  (new_dict {[ "query" := title ]} w).2.

(** A cache in good order: no title twice, at most [MAXSIZE] entries. *)
Definition lru_ok (cache : list (string * obj)) : Prop :=
  NoDup cache.*1 ∧ (length cache ≤ MAXSIZE)%nat.

(** A network that is down for the first three requests and finds Toy
    Story afterwards. *)
Definition down_then_up : nat → string → gmap string string → outcome :=
  λ n url _,
    if (n <? 3)%nat then Fails "ConnectionError"
    else Responds (Response 200 ∅ EmptyString url (Document toy_story)).

(** A server whose answer 200 is a JSON array. *)
Definition answers_list : nat → string → gmap string string → outcome :=
  λ _ url _, Responds (Response 200 ∅ EmptyString url (Document (JArr [JInt 1]))).

(** The pause of [map_movielens_to_tmdb] between two rows: a sleep of
    a quarter of a second. *)
Definition is_pause (e : event) : bool :=
  match e with
  | Sleep secs => Qeq_bool secs (1 # 4)
  | _ => false
  end.

Definition pauses_in (events : list event) : nat :=
  length (filter (λ e, is_pause e = true) events).

(** A file system without the directory of the cache file. *)
Definition no_directory : gmap string fsnode := ∅.

(** The ["id"] of the first candidate of a search result, when the
    result is a list that starts with an object holding one. *)
Definition first_id (results : json) : option json :=
  match results with
  | JArr (JObj fields :: _) => fields !! "id"
  | _ => None
  end.

(** Two films of one title, with another one between them. *)
Definition cinderellas : list movie_row :=
  [MovieRow 1022 "Cinderella (1950)" "Animation|Children";
   MovieRow 1 "Toy Story (1995)" "Adventure|Animation";
   MovieRow 132046 "Cinderella (2015)" "Drama|Fantasy"].

(** The titles stored ahead of a title in the cache, that is, used
    more recently than it. *)
Fixpoint keys_before (key : string) (cache : list (string * obj)) : list string :=
  match cache with
  | [] => []
  | (k, _) :: rest => if String.eqb k key then [] else k :: keys_before key rest
  end.

(** A title is held by a cache in good order with a given result, and
    only titles of a given list are ahead of it. *)
Definition held (key : string) (v : obj) (allowed : list string)
    (cache : list (string * obj)) : Prop :=
  lru_find key cache = Some v ∧ lru_ok cache ∧
  ∀ x, x ∈ keys_before key cache → x ∈ allowed.

(** Six hundred searches of two other titles. *)
Definition two_titles_often : list string :=
  (_ ← seq 0 300; ["Heat"; "Casino"])%list.

(** A server that answers 429 with [Retry-After: -1]. *)
Definition throttled_backwards : nat → string → gmap string string → outcome :=
  λ _ url _, Responds (Response 429 {[ "retry-after" := "-1" ]} EmptyString url Undecodable).

(** The error of [json.loads] that is not a decoding error, if decoding
    ends in one. *)
Definition body_error (d : decoding) : option exn :=
  match d with
  | IntegerTooLong => Some ValueError
  | NestedTooDeep => Some RecursionError
  | _ => None
  end.

(** Why a call of [_handle_request] can end in the exception [e] on
    the answer [r]: the answer is 429 and [int] rejects its
    [Retry-After], or reads a length which is not one of 0 to
    [LONGEST_SLEEP] seconds, a negative one or one beyond the clock in
    particular; or the answer is 200 and [json.loads] stops on a number
    too long or on nesting too deep. *)
Definition escapes (r : response) (e : exn) : Prop :=
  (status_code r = 429 ∧
   match retry_after_seconds r with
   | None => e = ValueError
   | Some d =>
       (d < 0 ∨ LONGEST_SLEEP < d) ∧
       (-9223372036 ≤ d < 0 → e = ValueError) ∧
       (d < -9223372036 ∨ 9223372036 < d → e = OverflowError)
   end) ∨
  (status_code r = 200 ∧ body_error (decoded r) = Some e).

(** A server that answers 429 and asks for 9223372037 seconds, one
    more than the clock of [time.sleep] holds. *)
Definition throttled_for_ages : nat → string → gmap string string → outcome :=
  λ _ url _,
    Responds (Response 429 {[ "retry-after" := "9223372037" ]} EmptyString url Undecodable).

(** A server whose answer 200 holds a number of more than 4300 digits. *)
Definition answers_long_number : nat → string → gmap string string → outcome :=
  λ _ url _, Responds (Response 200 ∅ EmptyString url IntegerTooLong).

(** A gateway that answers 200 with a page of HTML. *)
Definition answers_page : nat → string → gmap string string → outcome :=
  λ _ url _, Responds (Response 200 ∅ "<html></html>" url Undecodable).

(** A server that always answers 429 with [Retry-After: 2]. *)
Definition throttled_forever : nat → string → gmap string string → outcome :=
  λ _ url _, Responds (Response 429 {[ "retry-after" := "2" ]} EmptyString url Undecodable).

End ClientNotions.

(** ** api_client.py: the other two memoised lookups *)

Module Lookups.
Import ApiClient.

Local Open Scope string_scope.
Local Open Scope Z_scope.

(** The process with the caches of [get_movie_details] and of
    [get_recommendations] beside the world of [search_movie]. *)
Record process := Process {
  world_of : world;
  get_movie_details_cache : list (Z * json);
  get_recommendations_cache : list (Z * obj)
}.

(** A process that has just imported the module. *)
Definition fresh_process (files : gmap string fsnode) : process :=
  Process (start files) [] [].

(** [functools.lru_cache(maxsize=500)] for an integer argument. *)
Fixpoint lru_get {V} (key : Z) (cache : list (Z * V)) : option V :=
  match cache with
  | [] => None
  | (k, v) :: rest => if k =? key then Some v else lru_get key rest
  end.

Definition lru_hit {V} (key : Z) (v : V) (cache : list (Z * V)) : list (Z * V) :=
  (key, v) :: filter (λ e, e.1 ≠ key) cache.

Definition lru_miss {V} (key : Z) (v : V) (cache : list (Z * V)) : list (Z * V) :=
  take MAXSIZE ((key, v) :: cache).

Section Client.

Variable TMDB_API_KEY : string.
Variable transport : nat → string → gmap string string → outcome.

(** The body of [get_movie_details] (line 65); [f"/movie/{tmdb_id}"]
    holds the decimal text of the identifier. *)
Definition get_movie_details_body (tmdb_id : Z) : M json :=
  _handle_request TMDB_API_KEY transport ("/movie/" ++ pretty tmdb_id) None.

(** [get_movie_details] as decorated: also [None] is stored. *)
Definition get_movie_details (tmdb_id : Z) : process → result json * process := λ p,
  match lru_get tmdb_id (get_movie_details_cache p) with
  | Some v =>
      (Ret v,
       Process (world_of p) (lru_hit tmdb_id v (get_movie_details_cache p))
               (get_recommendations_cache p))
  | None =>
      match get_movie_details_body tmdb_id (world_of p) with
      | (Ret v, w') =>
          (Ret v,
           Process w' (lru_miss tmdb_id v (get_movie_details_cache p))
                   (get_recommendations_cache p))
      | (Raise e, w') =>
          (Raise e, Process w' (get_movie_details_cache p) (get_recommendations_cache p))
      end
  end.

(** The body of [get_recommendations] (lines 71 and 72). *)
Definition get_recommendations_body (tmdb_id : Z) : M obj :=
  bind (_handle_request TMDB_API_KEY transport
          ("/movie/" ++ pretty tmdb_id ++ "/recommendations") None)
       (λ result, if truthy result then get_results result else new_obj (JArr [])).

(** [get_recommendations] as decorated. *)
Definition get_recommendations (tmdb_id : Z) : process → result obj * process := λ p,
  match lru_get tmdb_id (get_recommendations_cache p) with
  | Some v =>
      (Ret v,
       Process (world_of p) (get_movie_details_cache p)
               (lru_hit tmdb_id v (get_recommendations_cache p)))
  | None =>
      match get_recommendations_body tmdb_id (world_of p) with
      | (Ret v, w') =>
          (Ret v,
           Process w' (get_movie_details_cache p)
                   (lru_miss tmdb_id v (get_recommendations_cache p)))
      | (Raise e, w') =>
          (Raise e, Process w' (get_movie_details_cache p) (get_recommendations_cache p))
      end
  end.

End Client.

(** The query of a request made without parameters of the caller. *)
Definition key_query (key : string) : gmap string string := {[ "api_key" := key ]}.

(** The addresses of the two lookups, and a server that knows the
    details of Toy Story. *)
Definition details_url (tmdb_id : Z) : string := BASE_URL ++ "/movie/" ++ pretty tmdb_id.

Definition recommendations_url (tmdb_id : Z) : string :=
  BASE_URL ++ "/movie/" ++ pretty tmdb_id ++ "/recommendations".

Definition toy_story_details : json := JObj {[ "id" := JInt 862; "title" := JStr "Toy Story" ]}.

Definition knows_toy_story : nat → string → gmap string string → outcome :=
  λ _ url _, Responds (Response 200 ∅ EmptyString url (Document toy_story_details)).

End Lookups.

(** ** Further vocabulary for data_loader.py *)

Module Cleaning.
Import DataLoader.

(** The rows of a user whose movie is rated at least [min_ratings]
    times in the table: what the user filter of [clean_data] counts. *)
Definition active_rows_of_user (u : Z) (t : ratings_table) (min_ratings : Z) : Z :=
  Z.of_nat (length (filter (λ r, userId r = u ∧ min_ratings ≤ rows_of_movie (movieId r) t) t)).

(** Nine ratings of one movie by one user. *)
Definition short_table : ratings_table := replicate 9 (grid_row 1 1).

End Cleaning.

(** ** Properties of data_loader.py *)

Module DataLoaderFacts.
Import DataLoader.

Lemma filter_absent (x : Z) (col : list Z) :
  x ∉ col → filter (λ y, y = x) col = [].
Proof.
  induction col as [|y col IH]; [done|].
  intros [Hne Hnin]%not_elem_of_cons.
  rewrite filter_cons_False by congruence. auto.
Qed.

Lemma value_counts_lookup (col : list Z) (x : Z) :
  value_counts col !! x =
    if decide (x ∈ col) then Some (occurrences x col) else None.
Proof.
  unfold occurrences. induction col as [|y col IH]; cbn [value_counts].
  - rewrite lookup_empty. case_decide as Hin; [by apply elem_of_nil in Hin | done].
  - destruct (decide (y = x)) as [->|Hne].
    + rewrite lookup_insert_eq, IH, filter_cons_True by done.
      rewrite (decide_True (P := x ∈ x :: col)) by apply list_elem_of_here.
      case_decide as Hin; simpl; f_equal; [lia|].
      by rewrite filter_absent.
    + rewrite lookup_insert_ne, IH, filter_cons_False by done.
      destruct (decide (x ∈ col)) as [Hin|Hnin].
      * rewrite decide_True; [done | by apply list_elem_of_further].
      * rewrite decide_False; [done|].
        intros [?|?]%elem_of_cons; congruence.
Qed.

Lemma elem_of_frequent (col : list Z) (threshold x : Z) :
  x ∈ frequent (value_counts col) threshold ↔
  x ∈ col ∧ threshold ≤ occurrences x col.
Proof.
  unfold frequent. rewrite elem_of_dom. unfold is_Some.
  setoid_rewrite map_lookup_filter_Some. setoid_rewrite value_counts_lookup.
  simpl. split.
  - intros [c [Hc Hle]]. case_decide; [|done]. split; [done|]. congruence.
  - intros [Hin Hle]. rewrite decide_True by done. eauto.
Qed.

Lemma occurrences_fmap {A} (f : A → Z) (x : Z) (t : list A) :
  occurrences x (f <$> t) = Z.of_nat (length (filter (λ r, f r = x) t)).
Proof.
  unfold occurrences. f_equal.
  induction t as [|r t IH]; [done|]. rewrite fmap_cons, !filter_cons.
  destruct (decide (f r = x)); simpl; by rewrite IH.
Qed.

Lemma clean_data_unfold (t : ratings_table) (a b : Z) :
  clean_data t a b =
    filter (λ r, userId r ∈ frequent (value_counts (userId <$> movie_filtered t a)) b)
           (movie_filtered t a).
Proof. reflexivity. Qed.

(** Both filters at arbitrary thresholds: users are counted in the
    result, movies in the table the call received. *)
Lemma clean_data_counts (t : ratings_table) (a b : Z) (r : rating_row) :
  r ∈ clean_data t a b →
  b ≤ rows_of_user (userId r) (clean_data t a b) ∧
  a ≤ rows_of_movie (movieId r) t.
Proof.
  rewrite clean_data_unfold. intros [Hu Hr]%list_elem_of_filter.
  split.
  - unfold rows_of_user.
    rewrite list_filter_filter.
    rewrite (list_filter_iff _ (λ r0, userId r0 = userId r)).
    2: { intros r0. split; [tauto|]. intros E. split; [done|]. by rewrite E. }
    apply elem_of_frequent in Hu as [_ Hu]. by rewrite occurrences_fmap in Hu.
  - unfold movie_filtered in Hr. apply list_elem_of_filter in Hr as [Hm _].
    apply elem_of_frequent in Hm as [_ Hm]. by rewrite occurrences_fmap in Hm.
Qed.

(** C1, as stated, fails on [grid_table]: movie 1 is rated ten times in
    the input and survives the movie filter, the user filter then removes
    user 11, and movie 1 is left with nine of the returned rows. *)
Lemma clean_data_movie_below_threshold :
  ¬ (∀ r, r ∈ clean_data grid_table 10 10 →
          10 ≤ rows_of_movie (movieId r) (clean_data grid_table 10 10) ∧
          10 ≤ rows_of_user (userId r) (clean_data grid_table 10 10)).
Proof.
  intros H. destruct (H (grid_row 1 1)) as [Hm _].
  - vm_compute. apply list_elem_of_here.
  - vm_compute in Hm. by apply Hm.
Qed.

(** C1 (amended): after [clean_data] with thresholds 10 and 10, every
    user ID of a returned row occurs in at least 10 returned rows, and
    every movie ID of a returned row occurs in at least 10 rows of the
    input table; the movie count is taken before the user filter. *)
Theorem clean_data_thresholds (t : ratings_table) (r : rating_row) :
  r ∈ clean_data t 10 10 →
  10 ≤ rows_of_user (userId r) (clean_data t 10 10) ∧
  10 ≤ rows_of_movie (movieId r) t.
Proof. apply clean_data_counts. Qed.

Lemma clean_data_thresholds_witness :
  grid_row 1 1 ∈ clean_data tiny_table 10 10 ∧
  10 ≤ rows_of_user 1 (clean_data tiny_table 10 10) ∧
  10 ≤ rows_of_movie 1 tiny_table.
Proof.
  assert (Hin : grid_row 1 1 ∈ clean_data tiny_table 10 10)
    by (vm_compute; apply list_elem_of_here).
  split; [exact Hin|].
  exact (clean_data_thresholds tiny_table (grid_row 1 1) Hin).
Defined.

(** C9: the rows [clean_data] returns are rows of its input, unchanged
    and in their original order: the result is a sublist of the input,
    so every returned row is an input row and none is added. *)
Theorem clean_data_sublist (t : ratings_table) (a b : Z) :
  clean_data t a b `sublist_of` t ∧
  (∀ r, r ∈ clean_data t a b → r ∈ t).
Proof.
  assert (Hsub : clean_data t a b `sublist_of` t).
  { rewrite clean_data_unfold. etrans; [apply sublist_filter|].
    apply sublist_filter. }
  split; [exact Hsub|]. intros r Hr. by eapply elem_of_sublist.
Qed.

End DataLoaderFacts.




(** ** Properties of api_client.py *)

Module ApiClientFacts.
Import ApiClient.

Local Open Scope string_scope.
Local Open Scope Z_scope.

Section Facts.

Variable TMDB_API_KEY : string.
Variable transport : nat → string → gmap string string → outcome.

Local Abbreviation iteration := (iteration transport).
Local Abbreviation attempts := (attempts transport).
Local Abbreviation _handle_request := (_handle_request TMDB_API_KEY transport).
Local Abbreviation search_movie := (search_movie TMDB_API_KEY transport).
Local Abbreviation search_many := (search_many TMDB_API_KEY transport).
Local Abbreviation map_row := (map_row TMDB_API_KEY transport).
Local Abbreviation map_rows := (map_rows TMDB_API_KEY transport).
Local Abbreviation map_movielens_to_tmdb := (map_movielens_to_tmdb TMDB_API_KEY transport).
Local Abbreviation bind_params := (bind_params TMDB_API_KEY).
Local Abbreviation entered := (entered TMDB_API_KEY).

Ltac run :=
  unfold ApiClient.iteration, try_except, attempt, on_request_exception,
    requests_get, response_json, retry_after_of, logger, emit,
    bind, ret, raise, query.

Ltac worlds :=
  unfold with_sent, with_trace, with_heap, with_fresh, with_cache, with_fs;
  cbn [trace sent heap fresh search_movie_cache fs];
  rewrite <- ?app_assoc; cbn [app].

(** *** Decimal texts *)

Lemma append_cons c (s1 s2 : string) :
  String c s1 ++ s2 = String c (s1 ++ s2).
Proof. reflexivity. Qed.















(** *** Primitive steps *)

Lemma fits_clock_int (d : Z) :
  fits_clock (inject_Z d) = bool_decide (-9223372036 ≤ d ≤ 9223372036).
Proof.
  unfold fits_clock, Qle_bool. cbn [Qmult inject_Z Qnum Qden Pos.mul].
  rewrite !Z.mul_1_r.
  change (- 2 ^ 63) with (-9223372036854775808).
  change (2 ^ 63 - 1) with 9223372036854775807.
  destruct (Z.leb_spec (-9223372036854775808) (d * 1000000000));
    destruct (Z.leb_spec (d * 1000000000) 9223372036854775807);
    cbn [andb]; symmetry;
    first [apply bool_decide_eq_true; lia | apply bool_decide_eq_false; lia].
Qed.

Lemma time_sleep_int (d : Z) (w : world) :
  0 ≤ d ≤ 9223372036 →
  time_sleep (inject_Z d) w =
    (Ret tt, with_trace (λ t, t ++ [Sleep (inject_Z d)])%list w).
Proof.
  intros Hd. unfold time_sleep.
  rewrite fits_clock_int, bool_decide_eq_true_2 by lia. cbn [negb].
  replace (Qle_bool 0 (inject_Z d)) with true; [reflexivity|].
  symmetry. apply Qle_bool_iff. unfold Qle. simpl. lia.
Qed.

Lemma time_sleep_negative (d : Z) (w : world) :
  -9223372036 ≤ d < 0 → time_sleep (inject_Z d) w = (Raise ValueError, w).
Proof.
  intros Hd. unfold time_sleep.
  rewrite fits_clock_int, bool_decide_eq_true_2 by lia. cbn [negb].
  replace (Qle_bool 0 (inject_Z d)) with false; [reflexivity|].
  symmetry. apply not_true_is_false. rewrite Qle_bool_iff.
  unfold Qle. simpl. lia.
Qed.

Lemma time_sleep_overflow (d : Z) (w : world) :
  d < -9223372036 ∨ 9223372036 < d →
  time_sleep (inject_Z d) w = (Raise OverflowError, w).
Proof.
  intros Hd. unfold time_sleep.
  rewrite fits_clock_int, bool_decide_eq_false_2 by lia. reflexivity.
Qed.

Lemma after_requests_compose k1 k2 e1 e2 w :
  after_requests k2 e2 (after_requests k1 e1 w) =
  after_requests (k1 + k2) (e1 ++ e2)%list w.
Proof.
  unfold after_requests. worlds. f_equal; first [lia | by rewrite <- ?app_assoc].
Qed.

Lemma after_requests_zero w : after_requests 0 [] w = w.
Proof. destruct w. unfold after_requests. worlds. by rewrite app_nil_r. Qed.

(** *** One iteration of the loop, by what the network does *)

Lemma iteration_fails url l w what :
  transport (sent w) url (query l w) = Fails what →
  iteration url l w =
    (Ret None,
     after_requests 1 [Get url (query l w); Log WARNING (RequestFailed what);
                       Sleep (inject_Z WAIT_TIME)] w).
Proof.
  intros H. run. unfold query in H. rewrite H. cbn.
  rewrite time_sleep_int by (unfold WAIT_TIME; lia).
  unfold after_requests. worlds. reflexivity.
Qed.

Lemma iteration_throttled url l w r d :
  transport (sent w) url (query l w) = Responds r →
  status_code r = 429 → retry_after_seconds r = Some d → 0 ≤ d ≤ 9223372036 →
  iteration url l w =
    (Ret None,
     after_requests 1 [Get url (query l w); Log DEBUG (RequestURL (ApiClient.url r));
                       Log WARNING (RateLimited d); Sleep (inject_Z d)] w).
Proof.
  intros H Hs Hd Hpos. run. unfold query in H. rewrite H, Hs, Hd. cbn.
  rewrite time_sleep_int by done. unfold after_requests. worlds. reflexivity.
Qed.

Lemma iteration_bad_retry_after url l w r :
  transport (sent w) url (query l w) = Responds r →
  status_code r = 429 → retry_after_seconds r = None →
  iteration url l w =
    (Raise ValueError,
     after_requests 1 [Get url (query l w);
                       Log DEBUG (RequestURL (ApiClient.url r))] w).
Proof.
  intros H Hs Hd. run. unfold query in H. rewrite H, Hs, Hd. cbn.
  unfold after_requests. worlds. reflexivity.
Qed.

Lemma iteration_negative_retry_after url l w r d :
  transport (sent w) url (query l w) = Responds r →
  status_code r = 429 → retry_after_seconds r = Some d → -9223372036 ≤ d < 0 →
  iteration url l w =
    (Raise ValueError,
     after_requests 1 [Get url (query l w); Log DEBUG (RequestURL (ApiClient.url r));
                       Log WARNING (RateLimited d)] w).
Proof.
  intros H Hs Hd Hneg. run. unfold query in H. rewrite H, Hs, Hd. cbn.
  rewrite time_sleep_negative by done. cbn.
  unfold after_requests. worlds. reflexivity.
Qed.

Lemma iteration_overflowing_retry_after url l w r d :
  transport (sent w) url (query l w) = Responds r →
  status_code r = 429 → retry_after_seconds r = Some d →
  d < -9223372036 ∨ 9223372036 < d →
  iteration url l w =
    (Raise OverflowError,
     after_requests 1 [Get url (query l w); Log DEBUG (RequestURL (ApiClient.url r));
                       Log WARNING (RateLimited d)] w).
Proof.
  intros H Hs Hd Hout. run. unfold query in H. rewrite H, Hs, Hd. cbn.
  rewrite time_sleep_overflow by done. cbn.
  unfold after_requests. worlds. reflexivity.
Qed.

Lemma json_body_Some r body : json_body r = Some body ↔ decoded r = Document body.
Proof.
  unfold json_body. split.
  - destruct (decoded r); by intros [= ->].
  - by intros ->.
Qed.

Lemma iteration_ok url l w r body :
  transport (sent w) url (query l w) = Responds r →
  status_code r = 200 → json_body r = Some body →
  iteration url l w =
    (Ret (Some body),
     after_requests 1 [Get url (query l w);
                       Log DEBUG (RequestURL (ApiClient.url r))] w).
Proof.
  intros H Hs Hb%json_body_Some. run. unfold query in H. rewrite H, Hs, Hb. cbn.
  unfold after_requests. worlds. reflexivity.
Qed.

Lemma iteration_undecodable url l w r :
  transport (sent w) url (query l w) = Responds r →
  status_code r = 200 → decoded r = Undecodable →
  iteration url l w =
    (Ret None,
     after_requests 1 [Get url (query l w); Log DEBUG (RequestURL (ApiClient.url r));
                       Log WARNING (RequestFailed "JSONDecodeError");
                       Sleep (inject_Z WAIT_TIME)] w).
Proof.
  intros H Hs Hb. run. unfold query in H. rewrite H, Hs, Hb. cbn.
  rewrite time_sleep_int by (unfold WAIT_TIME; lia).
  unfold after_requests. worlds. reflexivity.
Qed.

(** The two errors of [json.loads] that [response.json()] lets through
    are no [RequestException]: they leave the loop. *)
Lemma iteration_integer_too_long url l w r :
  transport (sent w) url (query l w) = Responds r →
  status_code r = 200 → decoded r = IntegerTooLong →
  iteration url l w =
    (Raise ValueError,
     after_requests 1 [Get url (query l w);
                       Log DEBUG (RequestURL (ApiClient.url r))] w).
Proof.
  intros H Hs Hb. run. unfold query in H. rewrite H, Hs, Hb. cbn.
  unfold after_requests. worlds. reflexivity.
Qed.

Lemma iteration_nested_too_deep url l w r :
  transport (sent w) url (query l w) = Responds r →
  status_code r = 200 → decoded r = NestedTooDeep →
  iteration url l w =
    (Raise RecursionError,
     after_requests 1 [Get url (query l w);
                       Log DEBUG (RequestURL (ApiClient.url r))] w).
Proof.
  intros H Hs Hb. run. unfold query in H. rewrite H, Hs, Hb. cbn.
  unfold after_requests. worlds. reflexivity.
Qed.

Lemma iteration_error url l w r :
  transport (sent w) url (query l w) = Responds r →
  status_code r ≠ 200 → status_code r ≠ 429 →
  iteration url l w =
    (Ret (Some JNull),
     after_requests 1 [Get url (query l w); Log DEBUG (RequestURL (ApiClient.url r));
                       Log ERROR (ApiError (status_code r) (text r))] w).
Proof.
  intros H H200 H429. run. unfold query in H. rewrite H. cbn.
  rewrite (proj2 (Z.eqb_neq _ _) H429), (proj2 (Z.eqb_neq _ _) H200). cbn.
  unfold after_requests. worlds. reflexivity.
Qed.

(** The lengths of sleep an integer [Retry-After] can ask for: one the
    clock holds, a negative one, or one beyond the clock. *)
Lemma sleep_cases (d : Z) :
  0 ≤ d ≤ 9223372036 ∨ -9223372036 ≤ d < 0 ∨ (d < -9223372036 ∨ 9223372036 < d).
Proof. lia. Qed.

(** Whatever the network does, an iteration issues one request and
    changes nothing but the trace and the request counter. *)
Lemma iteration_frame url l w :
  ∃ events, (iteration url l w).2 = after_requests 1 (Get url (query l w) :: events) w.
Proof.
  destruct (transport (sent w) url (query l w)) as [r|what] eqn:H.
  - destruct (decide (status_code r = 429)) as [H429|H429].
    + destruct (retry_after_seconds r) as [d|] eqn:Hd.
      * destruct (sleep_cases d) as [Hpos|[Hneg|Hout]].
        -- erewrite iteration_throttled by done. eauto.
        -- erewrite iteration_negative_retry_after by done. eauto.
        -- erewrite iteration_overflowing_retry_after by done. eauto.
      * erewrite iteration_bad_retry_after by done. eauto.
    + destruct (decide (status_code r = 200)) as [H200|H200].
      * destruct (decoded r) as [body| | |] eqn:Hb.
        -- erewrite iteration_ok by (done || by apply json_body_Some). eauto.
        -- erewrite iteration_undecodable by done. eauto.
        -- erewrite iteration_integer_too_long by done. eauto.
        -- erewrite iteration_nested_too_deep by done. eauto.
      * erewrite iteration_error by done. eauto.
  - erewrite iteration_fails by done. eauto.
Qed.

(** *** The loop *)

Lemma attempts_retried k n url l w wk :
  retried transport k url l w = Some wk →
  attempts (k + n) url l w = attempts n url l wk.
Proof.
  revert w. induction k as [|k IH]; intros w H; cbn in H.
  - by inversion H.
  - cbn [Nat.add ApiClient.attempts]. unfold bind at 1.
    destruct (iteration url l w) as [[[v|]|e] w1]; try done.
    by apply IH.
Qed.

Lemma retried_frame k url l w wk :
  retried transport k url l w = Some wk →
  ∃ events, wk = after_requests k events w.
Proof.
  revert w. induction k as [|k IH]; intros w H; cbn in H.
  - inversion H. exists []. by rewrite after_requests_zero.
  - destruct (iteration_frame url l w) as [e1 H1].
    destruct (iteration url l w) as [[[v|]|e] w1]; try done.
    cbn in H1. subst w1. destruct (IH _ H) as [e2 ->].
    rewrite after_requests_compose. eauto.
Qed.

Lemma after_requests_query k events l w :
  query l (after_requests k events w) = query l w.
Proof. reflexivity. Qed.

Lemma attempts_exhausted n url l w wn :
  retried transport n url l w = Some wn →
  attempts n url l w =
    (Ret JNull, after_requests 0 [Log ERROR ExceededMaxRetries] wn).
Proof.
  intros H. rewrite <- (Nat.add_0_r n) at 1.
  rewrite (attempts_retried _ _ _ _ _ _ H). reflexivity.
Qed.

(** The loop issues at most [n] requests and changes nothing but the
    trace and the request counter; when it runs at all it starts with a
    request. *)
Lemma attempts_frame n url l w :
  ∃ k events, (k ≤ n)%nat ∧
    (attempts n url l w).2 = after_requests k events w ∧
    (n ≠ 0%nat → ∃ rest, events = Get url (query l w) :: rest).
Proof.
  revert w. induction n as [|n IH]; intros w.
  - exists 0%nat, [Log ERROR ExceededMaxRetries]. by split; [lia|].
  - cbn [ApiClient.attempts]. unfold bind at 1.
    destruct (iteration_frame url l w) as [e1 H1].
    destruct (iteration url l w) as [[[v|]|e] w1]; cbn in H1; subst w1.
    + exists 1%nat. eexists. split; [lia|]. split; [reflexivity|]. eauto.
    + destruct (IH (after_requests 1 (Get url (query l w) :: e1) w))
        as (k & e2 & Hk & -> & _).
      rewrite after_requests_compose. exists (1 + k)%nat. eexists.
      split; [lia|]. split; [reflexivity|]. intros _. eexists. reflexivity.
    + exists 1%nat. eexists. split; [lia|]. split; [reflexivity|]. eauto.
Qed.

(** *** Entering [_handle_request] *)

Lemma handle_request_unfold endpoint params w :
  _handle_request endpoint params w =
    attempts (Z.to_nat RETRIES) (BASE_URL ++ endpoint)
             (params_ref params w) (entered params w).
Proof. by destruct params. Qed.

Lemma entered_frame params w :
  trace (entered params w) = trace w ∧ sent (entered params w) = sent w ∧
  search_movie_cache (entered params w) = search_movie_cache w ∧
  fs (entered params w) = fs w.
Proof. by destruct params. Qed.

Lemma entered_heap l w :
  heap (entered (Some l) w) = alter (insert "api_key" TMDB_API_KEY) l (heap w).
Proof. reflexivity. Qed.

(** *** What the specification says of [_handle_request] *)

(** C4: when every attempt raises a transport-level error,
    [_handle_request] issues exactly [RETRIES] = 3 requests, sleeps
    [WAIT_TIME] = 1 after each of them, logs that the retries are
    exhausted and returns [None]. *)
Theorem handle_request_unreachable endpoint params w :
  let url := BASE_URL ++ endpoint in
  let q := query (params_ref params w) (entered params w) in
  (∀ n, ∃ what, transport n url q = Fails what) →
  ∃ what0 what1 what2 w',
    _handle_request endpoint params w = (Ret JNull, w') ∧
    sent w' = (sent w + Z.to_nat RETRIES)%nat ∧
    trace w' =
      (trace w ++
       [Get url q; Log WARNING (RequestFailed what0); Sleep (inject_Z WAIT_TIME);
        Get url q; Log WARNING (RequestFailed what1); Sleep (inject_Z WAIT_TIME);
        Get url q; Log WARNING (RequestFailed what2); Sleep (inject_Z WAIT_TIME);
        Log ERROR ExceededMaxRetries])%list.
Proof.
  intros url q Hdown. rewrite handle_request_unfold.
  fold url. set (l := params_ref params w). set (w1 := entered params w).
  destruct (Hdown (sent w1)) as [what0 H0].
  destruct (Hdown (S (sent w1))) as [what1 H1].
  destruct (Hdown (S (S (sent w1)))) as [what2 H2].
  exists what0, what1, what2. eexists.
  assert (Hloop : retried transport 3 url l w1 =
            Some (after_requests 3
              [Get url q; Log WARNING (RequestFailed what0); Sleep (inject_Z WAIT_TIME);
               Get url q; Log WARNING (RequestFailed what1); Sleep (inject_Z WAIT_TIME);
               Get url q; Log WARNING (RequestFailed what2); Sleep (inject_Z WAIT_TIME)]
              w1)).
  { cbn [retried].
    rewrite (iteration_fails url l w1 what0 H0).
    rewrite (iteration_fails url l (after_requests 1 _ w1) what1 H1).
    rewrite after_requests_compose.
    rewrite (iteration_fails url l (after_requests 2 _ w1) what2 H2).
    rewrite after_requests_compose. reflexivity. }
  change (Z.to_nat RETRIES) with 3%nat.
  rewrite (attempts_exhausted _ _ _ _ _ Hloop), after_requests_compose.
  split; [reflexivity|].
  destruct (entered_frame params w) as (Ht & Hs & _).
  unfold after_requests. worlds. subst w1. rewrite Ht, Hs.
  split; [lia | reflexivity].
Qed.

(** C5: a first answer whose status is neither 200 nor 429 makes
    [_handle_request] return [None] after that one request; an answer
    200 with a body that decodes makes it return the decoded body at
    once, whatever number of attempts is left. *)
Theorem handle_request_status endpoint params w :
  let url := BASE_URL ++ endpoint in
  let l := params_ref params w in
  let q := query l (entered params w) in
  (∀ r,
     transport (sent w) url q = Responds r →
     status_code r ≠ 200 → status_code r ≠ 429 →
     ∃ w',
       _handle_request endpoint params w = (Ret JNull, w') ∧
       sent w' = S (sent w) ∧
       trace w' =
         (trace w ++
          [Get url q; Log DEBUG (RequestURL (ApiClient.url r));
           Log ERROR (ApiError (status_code r) (text r))])%list) ∧
  (∀ k wk r body,
     (k < Z.to_nat RETRIES)%nat →
     retried transport k url l (entered params w) = Some wk →
     transport (sent wk) url q = Responds r →
     status_code r = 200 → json_body r = Some body →
     ∃ w',
       _handle_request endpoint params w = (Ret body, w') ∧
       sent w' = S (sent wk) ∧
       trace w' =
         (trace wk ++
          [Get url q; Log DEBUG (RequestURL (ApiClient.url r))])%list).
Proof.
  intros url l q. destruct (entered_frame params w) as (Ht & Hs & _).
  split.
  - intros r Hr H200 H429. rewrite handle_request_unfold. fold url l.
    change (Z.to_nat RETRIES) with 3%nat. cbn [ApiClient.attempts].
    unfold bind at 1. rewrite <- Hs in Hr.
    rewrite (iteration_error url l _ r Hr H200 H429).
    eexists. split; [reflexivity|]. unfold after_requests. worlds.
    by rewrite Ht, Hs.
  - intros k wk r body Hk Hretried Hr H200 Hbody.
    rewrite handle_request_unfold. fold url l.
    change (Z.to_nat RETRIES) with 3%nat in *.
    replace 3%nat with (k + S (2 - k))%nat by lia.
    rewrite (attempts_retried _ _ _ _ _ _ Hretried).
    cbn [ApiClient.attempts]. unfold bind at 1.
    destruct (retried_frame _ _ _ _ _ Hretried) as [events ->].
    rewrite (iteration_ok url l _ r body Hr H200 Hbody).
    eexists. split; [reflexivity|]. by unfold after_requests; worlds.
Qed.


(** C10: called with the caller's dictionary, [_handle_request] stores
    the key in that very dictionary: afterwards it holds ["api_key"],
    it differs from what it was when it did not hold that entry, its
    other entries are what they were, and no other dictionary changed. *)
Theorem handle_request_mutates_params endpoint l d w :
  heap w !! l = Some d →
  ∃ res w',
    _handle_request endpoint (Some l) w = (res, w') ∧
    heap w' !! l = Some (<["api_key" := TMDB_API_KEY]> d) ∧
    (d !! "api_key" = None → heap w' !! l ≠ heap w !! l) ∧
    (∀ key, key ≠ "api_key" →
       (<["api_key" := TMDB_API_KEY]> d) !! key = d !! key) ∧
    (∀ l', l' ≠ l → heap w' !! l' = heap w !! l').
Proof.
  intros Hd. rewrite handle_request_unfold.
  destruct (attempts_frame (Z.to_nat RETRIES) (BASE_URL ++ endpoint)
              (params_ref (Some l) w) (entered (Some l) w))
    as (k & events & _ & Hw' & _).
  destruct (attempts _ _ _ _) as [res w']. cbn in Hw'. subst w'.
  exists res. eexists. split; [reflexivity|].
  unfold after_requests. worlds.
  assert (Hl : alter (insert "api_key" TMDB_API_KEY) l (heap w) !! l =
               Some (<["api_key" := TMDB_API_KEY]> d)).
  { by rewrite lookup_alter_eq, Hd. }
  split; [exact Hl|]. split; [|split].
  - intros Hnone. rewrite Hl, Hd. intros [= Heq].
    apply (f_equal (λ m, m !! "api_key")) in Heq.
    rewrite lookup_insert_eq, Hnone in Heq. done.
  - intros key Hkey. by rewrite lookup_insert_ne.
  - intros l' Hl'. by rewrite lookup_alter_ne.
Qed.

(** The part of C2 that holds: the call returns, with a decoded body or
    [None], as long as every answer 429 carries a [Retry-After] that
    [int] reads and [time.sleep] takes, and the body of every answer 200
    is a JSON document or a text [json.loads] cannot decode. *)
Lemma attempts_returns n url l w :
  (∀ m r, transport m url (query l w) = Responds r → status_code r = 429 →
          ∃ d, retry_after_seconds r = Some d ∧ 0 ≤ d ≤ LONGEST_SLEEP) →
  (∀ m r, transport m url (query l w) = Responds r → status_code r = 200 →
          is_Some (json_body r) ∨ decoded r = Undecodable) →
  ∃ v w', attempts n url l w = (Ret v, w').
Proof.
  revert w. induction n as [|n IH]; intros w Hvalid Hbody; [by eexists _, _|].
  cbn [ApiClient.attempts]. unfold bind at 1.
  assert (Hnext : ∀ events, ∃ v w',
            attempts n url l (after_requests 1 events w) = (Ret v, w')).
  { intros events. apply IH; intros m r; rewrite after_requests_query;
      [apply Hvalid | apply Hbody]. }
  destruct (transport (sent w) url (query l w)) as [r|what] eqn:H.
  - destruct (decide (status_code r = 429)) as [H429|H429].
    + destruct (Hvalid _ _ H H429) as (d & Hd & Hpos).
      rewrite (iteration_throttled url l w r d H H429 Hd)
        by (unfold LONGEST_SLEEP in Hpos; lia).
      apply Hnext.
    + destruct (decide (status_code r = 200)) as [H200|H200].
      * destruct (Hbody _ _ H H200) as [[body Hb]|Hb].
        -- rewrite (iteration_ok url l w r body H H200 Hb). by eexists _, _.
        -- rewrite (iteration_undecodable url l w r H H200 Hb). apply Hnext.
      * rewrite (iteration_error url l w r H H200 H429). by eexists _, _.
  - rewrite (iteration_fails url l w what H). apply Hnext.
Qed.

(** *** The cache of [search_movie] *)

Lemma lru_find_take_le key v n m (cache : list (string * obj)) :
  (n ≤ m)%nat →
  lru_find key (take n cache) = Some v → lru_find key (take m cache) = Some v.
Proof.
  revert n m. induction cache as [|[k x] cache IH]; intros n m Hle.
  - by rewrite !take_nil.
  - destruct n as [|n]; [done|]. destruct m as [|m]; [lia|]. cbn.
    destruct (String.eqb k key); [done|]. apply IH. lia.
Qed.

Lemma lru_find_take key v n (cache : list (string * obj)) :
  lru_find key (take n cache) = Some v → lru_find key cache = Some v.
Proof.
  intros H. rewrite <- (take_ge cache (n + length cache)) by lia.
  eapply lru_find_take_le; [|done]. lia.
Qed.

Lemma lru_find_filter key other v n (cache : list (string * obj)) :
  key ≠ other →
  lru_find key (take n cache) = Some v →
  lru_find key (take n (filter (λ e, e.1 ≠ other) cache)) = Some v.
Proof.
  intros Hne. revert n. induction cache as [|[k x] cache IH]; intros n; [done|].
  destruct n as [|n]; [done|]. cbn [take lru_find].
  destruct (String.eqb k key) eqn:Hk.
  - apply String.eqb_eq in Hk as ->. intros [= ->].
    rewrite filter_cons_True by done. cbn. by rewrite String.eqb_refl.
  - intros H. destruct (decide (k = other)) as [->|Hother].
    + rewrite filter_cons_False by (cbn; tauto).
      apply IH. eapply lru_find_take_le; [|done]. lia.
    + rewrite filter_cons_True by done. cbn. rewrite Hk. by apply IH.
Qed.

(** The body of [search_movie] leaves the cache alone. *)
Lemma search_movie_body_cache title w :
  search_movie_cache (search_movie_body TMDB_API_KEY transport title w).2 =
  search_movie_cache w.
Proof.
  unfold search_movie_body. unfold bind at 1. unfold new_dict at 1.
  unfold bind at 1. rewrite handle_request_unfold.
  match goal with
  | |- context [attempts ?n ?u ?l ?w1] =>
      destruct (attempts_frame n u l w1) as (k & events & _ & Hw' & _);
      destruct (attempts n u l w1) as [[v|e] w']
  end; cbn in Hw'; subst w'; [|done].
  destruct (truthy v); [|done].
  destruct v; try done. unfold get_results. by destruct (_ !! _).
Qed.

(** A call to [search_movie] pushes an entry back by one place at most,
    and keeps it while the place is within the capacity. *)
Lemma search_movie_keeps key v other n w :
  (S n ≤ MAXSIZE)%nat →
  lru_find key (take n (search_movie_cache w)) = Some v →
  lru_find key (take (S n) (search_movie_cache (search_movie other w).2)) = Some v.
Proof.
  intros Hn Hfound. unfold ApiClient.search_movie.
  destruct (lru_find other (search_movie_cache w)) as [x|] eqn:Hother.
  - cbn. destruct (String.eqb other key) eqn:Hk.
    + apply String.eqb_eq in Hk as ->.
      apply lru_find_take in Hfound. congruence.
    + apply String.eqb_neq in Hk. apply lru_find_filter; [congruence|done].
  - assert (Hne : other ≠ key).
    { intros ->. apply lru_find_take in Hfound. congruence. }
    assert (Hbody := search_movie_body_cache other w).
    destruct (search_movie_body _ _ other w) as [[x|e] w'];
      cbn [snd] in Hbody; unfold with_cache; cbn [snd search_movie_cache].
    + rewrite Hbody. unfold lru_store. rewrite take_take.
      rewrite Nat.min_l by done. cbn [take lru_find].
      by rewrite (proj2 (String.eqb_neq _ _) Hne).
    + rewrite Hbody. eapply lru_find_take_le; [|done]. lia.
Qed.

Lemma search_many_keeps key v others n w :
  (n + length others ≤ MAXSIZE)%nat →
  lru_find key (take n (search_movie_cache w)) = Some v →
  lru_find key (take (n + length others)
                     (search_movie_cache (search_many others w))) = Some v.
Proof.
  revert n w. induction others as [|other others IH]; intros n w Hn Hfound.
  - cbn. by rewrite Nat.add_0_r.
  - cbn [length ApiClient.search_many fold_left] in *.
    replace (n + S (length others))%nat with (S n + length others)%nat by lia.
    apply IH; [lia|]. apply search_movie_keeps; [lia|done].
Qed.

Lemma search_movie_stores title v w w1 :
  search_movie title w = (Ret v, w1) →
  lru_find title (take 1 (search_movie_cache w1)) = Some v.
Proof.
  unfold ApiClient.search_movie.
  destruct (lru_find title (search_movie_cache w)) as [x|].
  - intros [= -> <-]. cbn. by rewrite String.eqb_refl.
  - destruct (search_movie_body _ _ title w) as [[x|e] w']; [|done].
    intros [= -> <-]. cbn. by rewrite String.eqb_refl.
Qed.

Lemma search_movie_hit title v w :
  lru_find title (search_movie_cache w) = Some v →
  search_movie title w =
    (Ret v, with_cache (lru_touch title v (search_movie_cache w)) w).
Proof. intros H. unfold ApiClient.search_movie. by rewrite H. Qed.

(** C8 (amended): once [search_movie] has returned for a title, a
    second call with that title returns the same object and issues no
    request, sleeps and logs nothing, provided fewer than 500 calls to
    [search_movie] were made in between; this holds for the empty list
    a failed request leaves as for any other result. *)
Theorem search_movie_memoised title others w v w1 :
  search_movie title w = (Ret v, w1) →
  (length others < MAXSIZE)%nat →
  ∃ w3,
    search_movie title (search_many others w1) = (Ret v, w3) ∧
    sent w3 = sent (search_many others w1) ∧
    trace w3 = trace (search_many others w1).
Proof.
  intros Hfirst Hfew. apply search_movie_stores in Hfirst.
  apply (search_many_keeps title v others 1 w1) in Hfirst; [|lia].
  apply lru_find_take in Hfirst.
  rewrite (search_movie_hit _ _ _ Hfirst). eexists. by split.
Qed.

(** *** The identifier mapping *)

(** C6: when something exists at the path of the cache file,
    [map_movielens_to_tmdb] does not look at the rows and leaves the
    world untouched, so it issues no request; when it is a file that
    holds a JSON document, the call returns that document as it is. *)
Theorem mapping_read_from_cache_file rows node w :
  fs w !! cache_file = Some node →
  (map_movielens_to_tmdb rows w).2 = w ∧
  (∀ rows', map_movielens_to_tmdb rows' w = map_movielens_to_tmdb rows w) ∧
  (∀ document, node = File (Some document) →
     map_movielens_to_tmdb rows w = (Ret (Loaded document), w)).
Proof.
  intros Hfile.
  assert (Hrun : ∀ rows0, map_movielens_to_tmdb rows0 w =
            match node with
            | File (Some document) => (Ret (Loaded document), w)
            | File None => (Raise ValueError, w)
            | Directory => (Raise OSError, w)
            end).
  { intros rows0.
    unfold ApiClient.map_movielens_to_tmdb, bind, os_path_exists, json_load_file.
    rewrite Hfile. rewrite bool_decide_true by (by eexists).
    cbv beta iota. rewrite Hfile. by destruct node as [|[document|]]. }
  split; [|split].
  - rewrite Hrun. by destruct node as [|[document|]].
  - intros rows'. by rewrite !Hrun.
  - intros document ->. by rewrite Hrun.
Qed.

Lemma first_piece_split_go sep piece s :
  first_piece (split_go sep 0 piece s) = String.rev_app piece (before_first sep s).
Proof.
  revert piece. induction s as [|c s IH]; intros piece; [done|].
  cbn [split_go before_first]. destruct (String.prefix sep (String c s)); [done|].
  by rewrite IH.
Qed.

Lemma first_piece_split sep s :
  first_piece (py_split sep s) = before_first sep s.
Proof. apply first_piece_split_go. Qed.

(** [before_first sep s] ends where [sep] first occurs in [s]: what
    follows it is empty or starts with [sep], and [sep] starts nowhere
    inside it. *)
Lemma before_first_spec sep s :
  ∃ rest,
    s = before_first sep s ++ rest ∧
    (rest = EmptyString ∨ String.prefix sep rest = true) ∧
    (∀ b1 b2, before_first sep s = b1 ++ b2 → b2 ≠ EmptyString →
              String.prefix sep (b2 ++ rest) = false).
Proof.
  induction s as [|c s (rest & Hs & Hrest & Hnone)].
  - exists EmptyString. split; [done|]. split; [by left|].
    intros b1 b2 H. destruct b1, b2; done.
  - cbn [before_first]. destruct (String.prefix sep (String c s)) eqn:Hp.
    + exists (String c s). split; [done|]. split; [by right|].
      intros b1 b2 H. destruct b1, b2; done.
    + exists rest. split; [rewrite append_cons; by f_equal|]. split; [done|].
      intros [|c1 b1] b2 H Hb2.
      * change (EmptyString ++ b2) with b2 in H. subst b2.
        by rewrite append_cons, <- Hs.
      * rewrite append_cons in H. injection H as -> H. by apply (Hnone b1).
Qed.

(** One row, when the iteration completes: the search is made on the
    truncated title, and either the result is false and the mapping is
    left as it was, or it is a list whose first candidate is an object
    with an ["id"], stored under the key of the row. *)
Lemma map_row_returns row mapping w after w' :
  map_row row mapping w = (Ret after, w') →
  ∃ results ws,
    search_movie (first_piece (py_split " (" (title row))) w = (Ret results, ws) ∧
    ((truthy (value results) = false ∧ after = mapping) ∨
     (∃ first others fields id,
        value results = JArr (first :: others) ∧ first = JObj fields ∧
        fields !! "id" = Some id ∧ after = <[movieId row := id]> mapping)).
Proof.
  unfold ApiClient.map_row. unfold bind at 1.
  destruct (search_movie _ w) as [[results|e] ws]; [|done].
  intros H. exists results, ws. split; [done|].
  unfold bind at 1 in H. destruct (truthy (value results)) eqn:Htruthy.
  - right. unfold bind at 1 in H. unfold first_item in H.
    destruct (value results) as [| | | | [|c s] |[|first others]|]; try done.
    cbn in H. unfold bind at 1 in H. unfold item_id in H.
    destruct first as [| | | | | |fields]; try done.
    destruct (fields !! "id") as [id|] eqn:Hid; [|done].
    cbn in H. injection H as <- _. by exists (JObj fields), others, fields, id.
  - left. cbn in H. by injection H as <- _.
Qed.

Lemma map_row_other_key row mapping w after w' key :
  map_row row mapping w = (Ret after, w') →
  movieId row ≠ key → after !! key = mapping !! key.
Proof.
  intros (results & ws & _ & [[_ ->]|(first & others & fields & id & _ & _ & _ & ->)])
    %map_row_returns Hkey; [done|].
  by rewrite lookup_insert_ne.
Qed.

Lemma map_rows_app pre post mapping w :
  map_rows (pre ++ post) mapping w =
    match map_rows pre mapping w with
    | (Ret mapping', w') => map_rows post mapping' w'
    | (Raise e, w') => (Raise e, w')
    end.
Proof.
  revert mapping w. induction pre as [|row pre IH]; intros mapping w; [done|].
  cbn [app ApiClient.map_rows]. unfold bind.
  by destruct (map_row row mapping w) as [[m|e] w1].
Qed.

Lemma map_rows_other_key rows mapping w final w' key :
  map_rows rows mapping w = (Ret final, w') →
  (∀ row, row ∈ rows → movieId row ≠ key) →
  final !! key = mapping !! key.
Proof.
  revert mapping w. induction rows as [|row rows IH]; intros mapping w H Hkey.
  - by injection H as <- _.
  - cbn [ApiClient.map_rows] in H. unfold bind in H.
    destruct (map_row row mapping w) as [[m|e] w1] eqn:Hrow; [|done].
    rewrite (IH _ _ H) by (intros r Hr; apply Hkey; by right).
    eapply map_row_other_key; [done|]. apply Hkey. by left.
Qed.

(** C7: without a cache file, [map_movielens_to_tmdb] treats every
    row in turn.  The title it looks up is the row's title cut at the
    first [" ("] (["Toy Story (1995)"] gives ["Toy Story"]); it calls
    [search_movie] on it; when the result is a non-empty list it stores
    the ["id"] of the first candidate under the row's [movieId]; when
    the result is empty it leaves the mapping as it was, with no entry
    for the failure.  What a row stored is what the returned mapping
    holds for its key, no later row having the same key. *)
Theorem mapping_built_row_by_row rows w res w' :
  fs w !! cache_file = None →
  map_movielens_to_tmdb rows w = (Ret res, w') →
  first_piece (py_split " (" "Toy Story (1995)") = "Toy Story" ∧
  ∃ mapping, res = Built mapping ∧
  ∀ i row, rows !! i = Some row →
    let lookup_title := first_piece (py_split " (" (title row)) in
    (∃ rest,
       title row = lookup_title ++ rest ∧
       (rest = EmptyString ∨ String.prefix " (" rest = true) ∧
       (∀ b1 b2, lookup_title = b1 ++ b2 → b2 ≠ EmptyString →
                 String.prefix " (" (b2 ++ rest) = false)) ∧
    ∃ before wi results ws after wj,
      map_rows (take i rows) ∅ w = (Ret before, wi) ∧
      search_movie lookup_title wi = (Ret results, ws) ∧
      map_rows (take (S i) rows) ∅ w = (Ret after, wj) ∧
      (∀ first others,
         value results = JArr (first :: others) →
         ∃ fields id,
           first = JObj fields ∧ fields !! "id" = Some id ∧
           after = <[movieId row := id]> before) ∧
      (truthy (value results) = false → after = before) ∧
      ((∀ j later, (i < j)%nat → rows !! j = Some later →
                   movieId later ≠ movieId row) →
       mapping !! movieId row = after !! movieId row).
Proof.
  intros Hnofile Hrun. split; [reflexivity|].
  unfold ApiClient.map_movielens_to_tmdb in Hrun. unfold bind at 1 in Hrun.
  unfold os_path_exists in Hrun. rewrite Hnofile in Hrun.
  rewrite bool_decide_false in Hrun by (by intros [? ?]).
  cbv beta iota in Hrun. unfold bind at 1 in Hrun.
  destruct (map_rows rows ∅ w) as [[mapping|e] wend] eqn:Hrows; [|done].
  unfold bind at 1 in Hrun.
  destruct (json_dump_file mapping cache_file wend) as [[[]|e] wfile]; [|done].
  injection Hrun as <- _. exists mapping. split; [done|].
  intros i row Hi lookup_title. split.
  { subst lookup_title. rewrite first_piece_split. apply before_first_spec. }
  rewrite <- (take_drop_middle rows i row Hi), map_rows_app in Hrows.
  destruct (map_rows (take i rows) ∅ w) as [[before|e] wi] eqn:Hpre; [|done].
  cbn [ApiClient.map_rows] in Hrows. unfold bind at 1 in Hrows.
  destruct (map_row row before wi) as [[after|e] wj] eqn:Hrow; [|done].
  destruct (map_row_returns _ _ _ _ _ Hrow) as (results & ws & Hsearch & Hcases).
  exists before, wi, results, ws, after, wj.
  split; [done|]. split; [done|]. split; [|split; [|split]].
  - rewrite (take_S_r _ _ _ Hi), map_rows_app, Hpre.
    cbn [ApiClient.map_rows]. unfold bind at 1. by rewrite Hrow.
  - intros first others Hvalue.
    destruct Hcases as [[Hfalse _]|(f & o & fields & id & Hv & -> & Hid & ->)].
    + by rewrite Hvalue in Hfalse.
    + rewrite Hvalue in Hv. injection Hv as -> _. by exists fields, id.
  - intros Hfalse.
    destruct Hcases as [[_ ->]|(f & o & fields & id & Hv & _)]; [done|].
    by rewrite Hv in Hfalse.
  - intros Hlater. eapply map_rows_other_key; [exact Hrows|].
    intros later [k Hk]%list_elem_of_lookup. rewrite lookup_drop in Hk.
    apply (Hlater (S i + k)%nat); [lia|done].
Qed.

End Facts.

(** *** The statements on sample runs *)

(** C2: [_handle_request] lets an exception reach its caller.  A server
    that answers 429 with a date in [Retry-After] makes [int] raise
    [ValueError], which the [except] clause does not catch. *)
Theorem handle_request_raises_on_http_date :
  (_handle_request "k" throttled_until_date "/search/movie" None (start ∅)).1
  = Raise ValueError.
Proof. vm_compute. reflexivity. Qed.

Lemma handle_request_unreachable_witness :
  (∀ n, ∃ what, unreachable n search_url key_only = Fails what) ∧
  ∃ what0 what1 what2 w',
    _handle_request "k" unreachable "/search/movie" None (start ∅) = (Ret JNull, w') ∧
    sent w' = 3%nat ∧
    trace w' =
      [Get search_url key_only; Log WARNING (RequestFailed what0); Sleep (inject_Z 1);
       Get search_url key_only; Log WARNING (RequestFailed what1); Sleep (inject_Z 1);
       Get search_url key_only; Log WARNING (RequestFailed what2); Sleep (inject_Z 1);
       Log ERROR ExceededMaxRetries].
Proof.
  assert (H : ∀ n, ∃ what, unreachable n search_url key_only = Fails what)
    by (intros n; eexists; reflexivity).
  split; [exact H|].
  exact (handle_request_unreachable "k" unreachable "/search/movie" None (start ∅) H).
Defined.

Lemma handle_request_status_witness :
  (∃ w', _handle_request "k" not_found "/search/movie" None (start ∅) = (Ret JNull, w') ∧
         sent w' = 1%nat) ∧
  (∃ w', _handle_request "k" finds_toy_story "/search/movie" None (start ∅)
           = (Ret toy_story, w') ∧
         sent w' = 1%nat).
Proof.
  split.
  - destruct (proj1 (handle_request_status "k" not_found "/search/movie" None (start ∅))
                (Response 404 ∅ "Not Found" search_url Undecodable))
      as (w' & Hrun & Hsent & _); [reflexivity | done | done |].
    by exists w'.
  - destruct (proj2 (handle_request_status "k" finds_toy_story "/search/movie" None
                       (start ∅))
                0%nat (entered "k" None (start ∅))
                (Response 200 ∅ EmptyString search_url (Document toy_story)) toy_story)
      as (w' & Hrun & Hsent & _);
      [vm_compute; lia | reflexivity | reflexivity | reflexivity | reflexivity |].
    by exists w'.
Defined.


Lemma handle_request_mutates_params_witness :
  ∃ res w',
    _handle_request "k" finds_toy_story "/search/movie" (Some 0%nat) caller_world
      = (res, w') ∧
    heap w' !! 0%nat = Some (<["api_key" := "k"]> {[ "query" := "Toy Story" ]}) ∧
    heap w' !! 0%nat ≠ heap caller_world !! 0%nat.
Proof.
  destruct (handle_request_mutates_params "k" finds_toy_story "/search/movie" 0%nat
              {[ "query" := "Toy Story" ]} caller_world)
    as (res & w' & Hrun & Hheap & Hdiffers & _); [reflexivity|].
  exists res, w'. split; [done|]. split; [done|]. apply Hdiffers. reflexivity.
Defined.

(** C8, as stated, fails: after 500 searches of other titles the entry
    of ["0"] has been evicted, and searching ["0"] again issues a
    request. *)
Lemma search_movie_evicted :
  let first := search_movie "k" finds_nothing "0" (start ∅) in
  let w2 := search_many "k" finds_nothing other_titles first.2 in
  let second := search_movie "k" finds_nothing "0" w2 in
  (∃ v, first.1 = Ret v) ∧
  ¬ (second.1 = first.1 ∧ sent second.2 = sent w2).
Proof.
  intros first w2 second. split; [eexists; vm_compute; reflexivity|].
  intros [_ Hsent].
  assert (Hrequest : sent second.2 = S (sent w2)) by (vm_compute; reflexivity).
  rewrite Hrequest in Hsent. lia.
Qed.

Lemma search_movie_memoised_witness :
  let first := search_movie "k" finds_toy_story "Toy Story" (start ∅) in
  ∃ w3,
    search_movie "k" finds_toy_story "Toy Story"
      (search_many "k" finds_toy_story ["Jumanji"] first.2)
    = (Ret (Obj 1 (JArr [JObj {[ "id" := JInt 862 ]}])), w3) ∧
    sent w3 = 2%nat.
Proof.
  intros first.
  destruct (search_movie_memoised "k" finds_toy_story "Toy Story" ["Jumanji"] (start ∅)
              (Obj 1 (JArr [JObj {[ "id" := JInt 862 ]}])) first.2)
    as (w3 & Hrun & Hsent & _); [vm_compute; reflexivity | vm_compute; lia |].
  exists w3. split; [done|]. rewrite Hsent. vm_compute. reflexivity.
Defined.

Lemma mapping_read_from_cache_file_witness :
  map_movielens_to_tmdb "k" unreachable two_movies (start with_cache_file)
  = (Ret (Loaded cached_mapping), start with_cache_file).
Proof.
  assert (Hfile : fs (start with_cache_file) !! cache_file
                  = Some (File (Some cached_mapping)))
    by (vm_compute; reflexivity).
  exact (proj2 (proj2 (mapping_read_from_cache_file "k" unreachable two_movies
                         (File (Some cached_mapping)) (start with_cache_file) Hfile))
           cached_mapping eq_refl).
Defined.

Lemma mapping_built_row_by_row_witness :
  ∃ mapping,
    (map_movielens_to_tmdb "k" finds_only_toy_story two_movies (start processed)).1
      = Ret (Built mapping) ∧
    mapping !! 1 = Some (JInt 862) ∧ mapping !! 2 = None.
Proof.
  destruct (mapping_built_row_by_row "k" finds_only_toy_story two_movies (start processed)
              (Built {[ 1 := JInt 862 ]})
              (map_movielens_to_tmdb "k" finds_only_toy_story two_movies
                 (start processed)).2)
    as (_ & mapping & Hbuilt & _); [reflexivity | vm_compute; reflexivity |].
  exists mapping. injection Hbuilt as <-. split; [vm_compute; reflexivity|].
  split; reflexivity.
Defined.

End ApiClientFacts.

(** ** Further properties of data_loader.py *)

Module CleaningFacts.
Import DataLoader DataLoaderFacts Cleaning.

Section Filters.
Context {A : Type}.
Implicit Types P Q : A → Prop.

Lemma filter_ext_in P Q `{!∀ x, Decision (P x), !∀ x, Decision (Q x)} (l : list A) :
  (∀ x, x ∈ l → (P x ↔ Q x)) → filter P l = filter Q l.
Proof.
  induction l as [|x l IH]; intros Hext; [done|].
  rewrite !filter_cons.
  rewrite IH by (intros y Hy; apply Hext; by right).
  destruct (decide (P x)) as [HP|HP], (decide (Q x)) as [HQ|HQ]; try done.
  - exfalso. apply HQ, (Hext x); [by left|done].
  - exfalso. apply HP, (Hext x); [by left|done].
Qed.

Lemma filter_all P `{!∀ x, Decision (P x)} (l : list A) :
  (∀ x, x ∈ l → P x) → filter P l = l.
Proof.
  induction l as [|x l IH]; intros Hext; [done|].
  rewrite filter_cons_True by (apply Hext; by left).
  f_equal. apply IH. intros y Hy. apply Hext. by right.
Qed.

Lemma filter_none P `{!∀ x, Decision (P x)} (l : list A) :
  (∀ x, x ∈ l → ¬ P x) → filter P l = [].
Proof.
  induction l as [|x l IH]; intros Hext; [done|].
  rewrite filter_cons_False by (apply Hext; by left).
  apply IH. intros y Hy. apply Hext. by right.
Qed.

Lemma length_filter_mono P Q `{!∀ x, Decision (P x), !∀ x, Decision (Q x)}
    (l : list A) :
  (∀ x, P x → Q x) → (length (filter P l) ≤ length (filter Q l))%nat.
Proof.
  intros Himp. induction l as [|x l IH]; [done|]. rewrite !filter_cons.
  destruct (decide (P x)) as [HP|HP], (decide (Q x)) as [HQ|HQ]; cbn; try lia.
  exfalso. auto.
Qed.

Lemma length_filter_elem P `{!∀ x, Decision (P x)} (l : list A) x :
  x ∈ l → P x → (1 ≤ length (filter P l))%nat.
Proof.
  intros Hin HP.
  assert (Hx : x ∈ filter P l) by by apply list_elem_of_filter.
  destruct (filter P l); [by apply elem_of_nil in Hx | cbn; lia].
Qed.

End Filters.

Lemma movie_filtered_filter (t : ratings_table) (a : Z) :
  movie_filtered t a = filter (λ r, a ≤ rows_of_movie (movieId r) t) t.
Proof.
  unfold movie_filtered. apply filter_ext_in. intros r Hr.
  rewrite elem_of_frequent, occurrences_fmap. unfold rows_of_movie.
  split; [tauto|]. intros Hle. split; [|done].
  apply list_elem_of_fmap. by exists r.
Qed.

(** [clean_data] is one filter of the table it receives. *)
Lemma clean_data_filter (t : ratings_table) (a b : Z) :
  clean_data t a b =
    filter (λ r, a ≤ rows_of_movie (movieId r) t ∧
                 b ≤ active_rows_of_user (userId r) t a) t.
Proof.
  rewrite clean_data_unfold.
  rewrite (filter_ext_in _ (λ r, b ≤ active_rows_of_user (userId r) t a)).
  - rewrite movie_filtered_filter, list_filter_filter.
    apply list_filter_iff. intros r. tauto.
  - intros r Hr. rewrite elem_of_frequent, occurrences_fmap.
    assert (Hcount :
      Z.of_nat (length (filter (λ r0, userId r0 = userId r) (movie_filtered t a)))
      = active_rows_of_user (userId r) t a).
    { unfold active_rows_of_user.
      by rewrite movie_filtered_filter, list_filter_filter. }
    rewrite Hcount. split; [tauto|]. intros Hle. split; [|done].
    apply list_elem_of_fmap. by exists r.
Qed.

(** X1: a row is returned by [clean_data] exactly when it is a row of
    the input, its movie has at least [min_ratings] rows in the input,
    and its user has at least [min_users] rows among the input rows
    whose movie has at least [min_ratings] rows. *)
Theorem clean_data_membership (t : ratings_table) (a b : Z) (r : rating_row) :
  r ∈ clean_data t a b ↔
  r ∈ t ∧ a ≤ rows_of_movie (movieId r) t ∧
  b ≤ active_rows_of_user (userId r) t a.
Proof. rewrite clean_data_filter, list_elem_of_filter. tauto. Qed.

(** X2: raising either threshold never adds a row: the rows returned
    for higher thresholds are a sublist of those returned for lower
    ones. *)
Theorem clean_data_monotone (t : ratings_table) (a a' b b' : Z) :
  a ≤ a' → b ≤ b' →
  clean_data t a' b' `sublist_of` clean_data t a b.
Proof.
  intros Ha Hb. rewrite !clean_data_filter.
  rewrite <- (list_filter_filter_l
                (λ r, a' ≤ rows_of_movie (movieId r) t ∧
                      b' ≤ active_rows_of_user (userId r) t a')
                (λ r, a ≤ rows_of_movie (movieId r) t ∧
                      b ≤ active_rows_of_user (userId r) t a)).
  - apply sublist_filter.
  - intros r [Hm Hu]. split; [lia|].
    assert (active_rows_of_user (userId r) t a' ≤ active_rows_of_user (userId r) t a);
      [|lia].
    unfold active_rows_of_user. apply inj_le, length_filter_mono.
    intros r' [-> Hm']. split; [done | lia].
Qed.

Lemma clean_data_monotone_witness :
  clean_data grid_table 10 10 `sublist_of` clean_data grid_table 9 1.
Proof.
  apply (clean_data_monotone grid_table 9 10 1 10); lia.
Defined.

(** X3: with both thresholds at 1 or below nothing is removed. *)
Theorem clean_data_low_thresholds (t : ratings_table) (a b : Z) :
  a ≤ 1 → b ≤ 1 → clean_data t a b = t.
Proof.
  intros Ha Hb. rewrite clean_data_filter. apply filter_all. intros r Hr.
  assert (Hm : 1 ≤ rows_of_movie (movieId r) t).
  { unfold rows_of_movie.
    pose proof (length_filter_elem (λ r0, movieId r0 = movieId r) t r Hr eq_refl).
    lia. }
  split; [lia|]. unfold active_rows_of_user.
  pose proof (length_filter_elem
                (λ r0, userId r0 = userId r ∧ a ≤ rows_of_movie (movieId r0) t)
                t r Hr) as Hu.
  assert (Hself : userId r = userId r ∧ a ≤ rows_of_movie (movieId r) t)
    by (split; [done | lia]).
  specialize (Hu Hself). lia.
Qed.

Lemma clean_data_low_thresholds_witness :
  clean_data grid_table 1 0 = grid_table.
Proof. apply (clean_data_low_thresholds grid_table 1 0); lia. Defined.

(** X4: a table with fewer rows than one of the thresholds is emptied:
    no movie or no user can reach the threshold. *)
Theorem clean_data_short_table (t : ratings_table) (a b : Z) :
  Z.of_nat (length t) < a ∨ Z.of_nat (length t) < b →
  clean_data t a b = [].
Proof.
  intros Hshort. rewrite clean_data_filter. apply filter_none. intros r Hr [Hm Hu].
  assert (rows_of_movie (movieId r) t ≤ Z.of_nat (length t)).
  { unfold rows_of_movie. apply inj_le, length_filter. }
  assert (active_rows_of_user (userId r) t a ≤ Z.of_nat (length t)).
  { unfold active_rows_of_user. apply inj_le, length_filter. }
  lia.
Qed.

Lemma clean_data_short_table_witness :
  clean_data short_table 10 10 = [].
Proof.
  apply (clean_data_short_table short_table 10 10). left. vm_compute. reflexivity.
Defined.

End CleaningFacts.

(** ** Further properties of api_client.py *)

Module ClientFacts.
Import ApiClient ApiClientFacts ClientNotions.

Local Open Scope string_scope.
Local Open Scope Z_scope.

Section Facts.

Variable TMDB_API_KEY : string.
Variable transport : nat → string → gmap string string → outcome.

Local Abbreviation iteration := (iteration transport).
Local Abbreviation attempts := (attempts transport).
Local Abbreviation _handle_request := (_handle_request TMDB_API_KEY transport).
Local Abbreviation search_movie := (search_movie TMDB_API_KEY transport).
Local Abbreviation search_movie_body := (search_movie_body TMDB_API_KEY transport).
Local Abbreviation map_row := (map_row TMDB_API_KEY transport).
Local Abbreviation map_rows := (map_rows TMDB_API_KEY transport).
Local Abbreviation map_movielens_to_tmdb := (map_movielens_to_tmdb TMDB_API_KEY transport).
Local Abbreviation entered := (entered TMDB_API_KEY).

Ltac worlds :=
  unfold with_sent, with_trace, with_heap, with_fresh, with_cache, with_fs;
  cbn [trace sent heap fresh search_movie_cache fs];
  rewrite <- ?app_assoc; cbn [app].

(** *** The events of a call *)

Lemma requests_in_app e1 e2 :
  requests_in (e1 ++ e2) = (requests_in e1 + requests_in e2)%nat.
Proof. unfold requests_in. by rewrite filter_app, length_app. Qed.

Lemma sleep_event url q d : 0 ≤ d → call_event url q (Sleep (inject_Z d)).
Proof. intros Hd. by exists d. Qed.

(** One iteration: its request, then events that hold no request. *)
Lemma iteration_events url l w :
  ∃ events,
    (iteration url l w).2 = after_requests 1 (Get url (query l w) :: events) w ∧
    Forall (call_event url (query l w)) events ∧ requests_in events = 0%nat.
Proof.
  assert (Hwait : call_event url (query l w) (Sleep (inject_Z WAIT_TIME)))
    by (apply sleep_event; unfold WAIT_TIME; lia).
  destruct (transport (sent w) url (query l w)) as [r|what] eqn:H.
  - destruct (decide (status_code r = 429)) as [H429|H429].
    + destruct (retry_after_seconds r) as [d|] eqn:Hd.
      * destruct (sleep_cases d) as [Hpos|[Hneg|Hout]].
        -- erewrite iteration_throttled by done. eexists. split; [done|].
           split; [|done]. repeat constructor. apply sleep_event. lia.
        -- erewrite iteration_negative_retry_after by done.
           eexists. split; [done|]. split; [|done]. by repeat constructor.
        -- erewrite iteration_overflowing_retry_after by done.
           eexists. split; [done|]. split; [|done]. by repeat constructor.
      * erewrite iteration_bad_retry_after by done.
        eexists. split; [done|]. split; [|done]. by repeat constructor.
    + destruct (decide (status_code r = 200)) as [H200|H200].
      * destruct (decoded r) as [body| | |] eqn:Hb.
        -- erewrite iteration_ok by (done || by apply json_body_Some).
           eexists. split; [done|]. split; [|done]. by repeat constructor.
        -- erewrite iteration_undecodable by done.
           eexists. split; [done|]. split; [|done]. by repeat constructor.
        -- erewrite iteration_integer_too_long by done.
           eexists. split; [done|]. split; [|done]. by repeat constructor.
        -- erewrite iteration_nested_too_deep by done.
           eexists. split; [done|]. split; [|done]. by repeat constructor.
      * erewrite iteration_error by done.
        eexists. split; [done|]. split; [|done]. by repeat constructor.
  - erewrite iteration_fails by done.
    eexists. split; [done|]. split; [|done]. by repeat constructor.
Qed.

(** The loop: between one and [n] requests, all to the same address
    with the same query. *)
Lemma attempts_events n url l w :
  ∃ events,
    (attempts n url l w).2 = after_requests (requests_in events) events w ∧
    Forall (call_event url (query l w)) events ∧
    (requests_in events ≤ n)%nat ∧ (n ≠ 0%nat → (1 ≤ requests_in events)%nat).
Proof.
  revert w. induction n as [|n IH]; intros w.
  - exists [Log ERROR ExceededMaxRetries]. split; [done|]. split; [|done].
    by repeat constructor.
  - cbn [ApiClient.attempts]. unfold bind at 1.
    destruct (iteration_events url l w) as (e1 & H1 & Hall1 & Hnone1).
    assert (Hfirst : requests_in (Get url (query l w) :: e1) = 1%nat).
    { change (Get url (query l w) :: e1) with ([Get url (query l w)] ++ e1)%list.
      rewrite requests_in_app, Hnone1. reflexivity. }
    assert (Hall : Forall (call_event url (query l w)) (Get url (query l w) :: e1))
      by (by constructor).
    destruct (iteration url l w) as [[[v|]|e] w1]; cbn [snd] in H1; subst w1.
    + eexists. rewrite Hfirst. split; [reflexivity|]. split; [done|]. lia.
    + destruct (IH (after_requests 1 (Get url (query l w) :: e1) w))
        as (e2 & -> & Hall2 & Hle & _).
      rewrite after_requests_compose.
      exists ((Get url (query l w) :: e1) ++ e2)%list.
      rewrite requests_in_app, Hfirst. split; [reflexivity|].
      split; [by apply Forall_app|]. lia.
    + eexists. rewrite Hfirst. split; [reflexivity|]. split; [done|]. lia.
Qed.

(** The loop lets no [RequestException] through, and what it raises
    comes from the handling of an answer 429 or 200. *)
Lemma attempts_raises n url l w e w' :
  attempts n url l w = (Raise e, w') →
  is_RequestException e = false ∧
  ∃ m r, transport m url (query l w) = Responds r ∧ escapes r e.
Proof.
  revert w. induction n as [|n IH]; intros w; [done|].
  cbn [ApiClient.attempts]. unfold bind at 1.
  assert (Hnext : ∀ events,
            attempts n url l (after_requests 1 events w) = (Raise e, w') →
            is_RequestException e = false ∧
            ∃ m r, transport m url (query l w) = Responds r ∧ escapes r e).
  { intros events Hrun. exact (IH (after_requests 1 events w) Hrun). }
  destruct (transport (sent w) url (query l w)) as [r|what] eqn:H.
  - destruct (decide (status_code r = 429)) as [H429|H429].
    + destruct (retry_after_seconds r) as [d|] eqn:Hd.
      * destruct (sleep_cases d) as [Hpos|[Hneg|Hout]].
        -- rewrite (iteration_throttled _ url l w r d H H429 Hd Hpos). apply Hnext.
        -- rewrite (iteration_negative_retry_after _ url l w r d H H429 Hd Hneg).
           intros [= <- _]. split; [done|]. exists (sent w), r.
           split; [done|]. left. split; [done|]. rewrite Hd.
           split; [lia|]. split; [done | lia].
        -- rewrite (iteration_overflowing_retry_after _ url l w r d H H429 Hd Hout).
           intros [= <- _]. split; [done|]. exists (sent w), r.
           split; [done|]. left. split; [done|]. rewrite Hd.
           split; [unfold LONGEST_SLEEP; lia|]. split; [lia | done].
      * rewrite (iteration_bad_retry_after _ url l w r H H429 Hd).
        intros [= <- _]. split; [done|]. exists (sent w), r.
        split; [done|]. left. split; [done|]. by rewrite Hd.
    + destruct (decide (status_code r = 200)) as [H200|H200].
      * destruct (decoded r) as [body| | |] eqn:Hb.
        -- by rewrite (iteration_ok _ url l w r body H H200)
             by (by apply json_body_Some).
        -- rewrite (iteration_undecodable _ url l w r H H200 Hb). apply Hnext.
        -- rewrite (iteration_integer_too_long _ url l w r H H200 Hb).
           intros [= <- _]. split; [done|]. exists (sent w), r.
           split; [done|]. right. split; [done|]. by rewrite Hb.
        -- rewrite (iteration_nested_too_deep _ url l w r H H200 Hb).
           intros [= <- _]. split; [done|]. exists (sent w), r.
           split; [done|]. right. split; [done|]. by rewrite Hb.
      * by rewrite (iteration_error _ url l w r H H200 H429).
  - rewrite (iteration_fails _ url l w what H). apply Hnext.
Qed.

(** *** Further properties of [_handle_request] *)

(** X5: whatever the network does, a call of [_handle_request] issues
    at least one request and at most [RETRIES], all to the address of
    its endpoint with one and the same query; its sleeps last a whole
    number of seconds; it leaves the cache of [search_movie] and the
    files alone. *)
Theorem handle_request_requests endpoint params w :
  let url := BASE_URL ++ endpoint in
  let q := query (params_ref params w) (entered params w) in
  let w' := (_handle_request endpoint params w).2 in
  ∃ events,
    trace w' = (trace w ++ events)%list ∧
    sent w' = (sent w + requests_in events)%nat ∧
    (1 ≤ requests_in events ≤ Z.to_nat RETRIES)%nat ∧
    Forall (call_event url q) events ∧
    search_movie_cache w' = search_movie_cache w ∧ fs w' = fs w.
Proof.
  intros url q w'. subst w'. rewrite handle_request_unfold. fold url.
  destruct (attempts_events (Z.to_nat RETRIES) url (params_ref params w)
              (entered params w)) as (events & -> & Hall & Hle & Hge).
  destruct (entered_frame TMDB_API_KEY params w) as (Ht & Hs & Hc & Hf).
  exists events. unfold after_requests. worlds. rewrite Ht, Hs, Hc, Hf.
  split; [done|]. split; [lia|]. split; [|done].
  split; [by apply Hge | done].
Qed.

Lemma entered_query params w :
  (∀ l, params = Some l → is_Some (heap w !! l)) →
  query (params_ref params w) (entered params w) =
    <["api_key" := TMDB_API_KEY]>
      match params with
      | None => ∅
      | Some l => default ∅ (heap w !! l)
      end.
Proof.
  intros Hlive. unfold query. destruct params as [l|]; cbn.
  - destruct (Hlive l eq_refl) as [d Hd]. by rewrite lookup_alter_eq, Hd.
  - by rewrite lookup_alter_eq, lookup_insert_eq.
Qed.

(** X6: every request of a call carries the API key: the query is the
    caller's dictionary with ["api_key"] set to the key, or the key
    alone when the caller passed no dictionary. *)
Theorem handle_request_sends_key endpoint params w :
  (∀ l, params = Some l → is_Some (heap w !! l)) →
  ∃ events,
    trace (_handle_request endpoint params w).2 = (trace w ++ events)%list ∧
    ∀ u p, Get u p ∈ events →
      u = BASE_URL ++ endpoint ∧
      p !! "api_key" = Some TMDB_API_KEY ∧
      (params = None → p = {[ "api_key" := TMDB_API_KEY ]}) ∧
      (∀ l d, params = Some l → heap w !! l = Some d →
              p = <["api_key" := TMDB_API_KEY]> d).
Proof.
  intros Hlive. rewrite handle_request_unfold.
  destruct (attempts_events (Z.to_nat RETRIES) (BASE_URL ++ endpoint)
              (params_ref params w) (entered params w))
    as (events & -> & Hall & _).
  destruct (entered_frame TMDB_API_KEY params w) as (Ht & _).
  exists events. unfold after_requests. worlds. rewrite Ht. split; [done|].
  intros u p Hin. rewrite Forall_forall in Hall.
  destruct (Hall _ Hin) as [-> ->]. rewrite (entered_query _ _ Hlive).
  split; [done|]. split; [by rewrite lookup_insert_eq|]. split.
  - by intros ->.
  - intros l d -> Hd. by rewrite Hd.
Qed.

(** X7: a call lets no [RequestException] reach its caller, and an
    exception that does reach the caller comes from the handling of an
    answer: a 429 whose [Retry-After] [int] rejects ([ValueError]) or
    reads as a length [time.sleep] refuses, negative ([ValueError]) or
    beyond its clock ([OverflowError]), and never one of 0 to
    [LONGEST_SLEEP] seconds; or a 200 whose body holds a number too
    long for [json.loads] ([ValueError]) or is nested too deep for it
    ([RecursionError]). *)
Theorem handle_request_escaping_exception endpoint params w e w' :
  _handle_request endpoint params w = (Raise e, w') →
  is_RequestException e = false ∧
  ∃ m r,
    transport m (BASE_URL ++ endpoint)
              (query (params_ref params w) (entered params w)) = Responds r ∧
    escapes r e.
Proof. rewrite handle_request_unfold. apply attempts_raises. Qed.

(** X8: rate limiting uses up the attempts: when every answer is 429
    with a [Retry-After] of 0 to [LONGEST_SLEEP] seconds, the call
    issues [RETRIES] = 3 requests, sleeps as told after each of them,
    the last one included, logs that the retries are exhausted and
    returns [None]. *)
Theorem handle_request_throttled_throughout endpoint params w :
  let url := BASE_URL ++ endpoint in
  let q := query (params_ref params w) (entered params w) in
  (∀ n, ∃ r d, transport n url q = Responds r ∧ status_code r = 429 ∧
               retry_after_seconds r = Some d ∧ 0 ≤ d ≤ LONGEST_SLEEP) →
  ∃ r0 d0 r1 d1 r2 d2 w',
    _handle_request endpoint params w = (Ret JNull, w') ∧
    sent w' = (sent w + Z.to_nat RETRIES)%nat ∧
    trace w' =
      (trace w ++
       [Get url q; Log DEBUG (RequestURL (ApiClient.url r0));
        Log WARNING (RateLimited d0); Sleep (inject_Z d0);
        Get url q; Log DEBUG (RequestURL (ApiClient.url r1));
        Log WARNING (RateLimited d1); Sleep (inject_Z d1);
        Get url q; Log DEBUG (RequestURL (ApiClient.url r2));
        Log WARNING (RateLimited d2); Sleep (inject_Z d2);
        Log ERROR ExceededMaxRetries])%list.
Proof.
  intros url q Hbusy. rewrite handle_request_unfold.
  fold url. set (l := params_ref params w). set (w1 := entered params w).
  destruct (Hbusy (sent w1)) as (r0 & d0 & H0 & S0 & D0 & P0).
  destruct (Hbusy (S (sent w1))) as (r1 & d1 & H1 & S1 & D1 & P1).
  destruct (Hbusy (S (S (sent w1)))) as (r2 & d2 & H2 & S2 & D2 & P2).
  exists r0, d0, r1, d1, r2, d2. eexists.
  unfold LONGEST_SLEEP in P0, P1, P2.
  assert (F0 : 0 ≤ d0 ≤ 9223372036) by lia.
  assert (F1 : 0 ≤ d1 ≤ 9223372036) by lia.
  assert (F2 : 0 ≤ d2 ≤ 9223372036) by lia.
  assert (Hloop : retried transport 3 url l w1 =
            Some (after_requests 3
              [Get url q; Log DEBUG (RequestURL (ApiClient.url r0));
               Log WARNING (RateLimited d0); Sleep (inject_Z d0);
               Get url q; Log DEBUG (RequestURL (ApiClient.url r1));
               Log WARNING (RateLimited d1); Sleep (inject_Z d1);
               Get url q; Log DEBUG (RequestURL (ApiClient.url r2));
               Log WARNING (RateLimited d2); Sleep (inject_Z d2)]
              w1)).
  { cbn [retried].
    rewrite (iteration_throttled _ url l w1 r0 d0 H0 S0 D0 F0).
    rewrite (iteration_throttled _ url l (after_requests 1 _ w1) r1 d1 H1 S1 D1 F1).
    rewrite after_requests_compose.
    rewrite (iteration_throttled _ url l (after_requests 2 _ w1) r2 d2 H2 S2 D2 F2).
    rewrite after_requests_compose. reflexivity. }
  change (Z.to_nat RETRIES) with 3%nat.
  rewrite (attempts_exhausted _ _ _ _ _ _ Hloop), after_requests_compose.
  split; [reflexivity|].
  destruct (entered_frame TMDB_API_KEY params w) as (Ht & Hs & _).
  unfold after_requests. worlds. subst w1. rewrite Ht, Hs.
  split; [lia | reflexivity].
Qed.

(** X9: a negative [Retry-After] stops the call at once: the wait is
    announced in the log, [time.sleep] refuses it, and its exception
    reaches the caller after this one request: [ValueError], or
    [OverflowError] when the length is below -9223372036 seconds and
    so beyond the clock. *)
Theorem handle_request_negative_retry_after endpoint params w r d :
  let url := BASE_URL ++ endpoint in
  let q := query (params_ref params w) (entered params w) in
  transport (sent w) url q = Responds r →
  status_code r = 429 → retry_after_seconds r = Some d → d < 0 →
  ∃ w',
    _handle_request endpoint params w =
      (Raise (if bool_decide (-9223372036 ≤ d) then ValueError else OverflowError),
       w') ∧
    sent w' = S (sent w) ∧
    trace w' =
      (trace w ++
       [Get url q; Log DEBUG (RequestURL (ApiClient.url r));
        Log WARNING (RateLimited d)])%list.
Proof.
  intros url q Hr H429 Hd Hneg. rewrite handle_request_unfold. fold url.
  destruct (entered_frame TMDB_API_KEY params w) as (Ht & Hs & _).
  change (Z.to_nat RETRIES) with 3%nat. cbn [ApiClient.attempts].
  unfold bind at 1. rewrite <- Hs in Hr.
  case_bool_decide as Hfits.
  - rewrite (iteration_negative_retry_after _ url _ _ r d Hr H429 Hd) by lia.
    eexists. split; [reflexivity|]. unfold after_requests. worlds.
    by rewrite Ht, Hs.
  - rewrite (iteration_overflowing_retry_after _ url _ _ r d Hr H429 Hd) by lia.
    eexists. split; [reflexivity|]. unfold after_requests. worlds.
    by rewrite Ht, Hs.
Qed.

(** X10: a [Retry-After] of more seconds than the clock of
    [time.sleep] holds stops the call as well: after the one request
    the wait is announced in the log, no sleep takes place, no further
    request is made, and [OverflowError] reaches the caller. *)
Theorem handle_request_retry_after_beyond_clock endpoint params w r d :
  let url := BASE_URL ++ endpoint in
  let q := query (params_ref params w) (entered params w) in
  transport (sent w) url q = Responds r →
  status_code r = 429 → retry_after_seconds r = Some d → 9223372036 < d →
  ∃ w',
    _handle_request endpoint params w = (Raise OverflowError, w') ∧
    sent w' = S (sent w) ∧
    trace w' =
      (trace w ++
       [Get url q; Log DEBUG (RequestURL (ApiClient.url r));
        Log WARNING (RateLimited d)])%list.
Proof.
  intros url q Hr H429 Hd Hbeyond. rewrite handle_request_unfold. fold url.
  destruct (entered_frame TMDB_API_KEY params w) as (Ht & Hs & _).
  change (Z.to_nat RETRIES) with 3%nat. cbn [ApiClient.attempts].
  unfold bind at 1. rewrite <- Hs in Hr.
  rewrite (iteration_overflowing_retry_after _ url _ _ r d Hr H429 Hd) by lia.
  eexists. split; [reflexivity|]. unfold after_requests. worlds.
  by rewrite Ht, Hs.
Qed.

(** X29: an answer 200 is not retried when decoding its body stops
    on a number too long or on nesting too deep: these errors of
    [json.loads] are no [RequestException], so after the one request
    [ValueError], or [RecursionError], reaches the caller. *)
Theorem handle_request_body_error endpoint params w r e :
  let url := BASE_URL ++ endpoint in
  let q := query (params_ref params w) (entered params w) in
  transport (sent w) url q = Responds r →
  status_code r = 200 → body_error (decoded r) = Some e →
  ∃ w',
    _handle_request endpoint params w = (Raise e, w') ∧
    sent w' = S (sent w) ∧
    trace w' =
      (trace w ++ [Get url q; Log DEBUG (RequestURL (ApiClient.url r))])%list.
Proof.
  intros url q Hr H200 Hbody. rewrite handle_request_unfold. fold url.
  destruct (entered_frame TMDB_API_KEY params w) as (Ht & Hs & _).
  change (Z.to_nat RETRIES) with 3%nat. cbn [ApiClient.attempts].
  unfold bind at 1. rewrite <- Hs in Hr.
  destruct (decoded r) eqn:Hdecoded; try done; injection Hbody as <-.
  - rewrite (iteration_integer_too_long _ url _ _ r Hr H200 Hdecoded).
    eexists. split; [reflexivity|]. unfold after_requests. worlds.
    by rewrite Ht, Hs.
  - rewrite (iteration_nested_too_deep _ url _ _ r Hr H200 Hdecoded).
    eexists. split; [reflexivity|]. unfold after_requests. worlds.
    by rewrite Ht, Hs.
Qed.

(** X30: an answer 200 whose body is no JSON document is retried like
    a transport error: when every answer is of that kind the call
    issues [RETRIES] = 3 requests, logs a warning and sleeps
    [WAIT_TIME] after each of them, logs that the retries are exhausted
    and returns [None]. *)
Theorem handle_request_undecodable_body endpoint params w :
  let url := BASE_URL ++ endpoint in
  let q := query (params_ref params w) (entered params w) in
  (∀ n, ∃ r, transport n url q = Responds r ∧ status_code r = 200 ∧
             decoded r = Undecodable) →
  ∃ r0 r1 r2 what0 what1 what2 w',
    _handle_request endpoint params w = (Ret JNull, w') ∧
    sent w' = (sent w + Z.to_nat RETRIES)%nat ∧
    trace w' =
      (trace w ++
       [Get url q; Log DEBUG (RequestURL (ApiClient.url r0));
        Log WARNING (RequestFailed what0); Sleep (inject_Z WAIT_TIME);
        Get url q; Log DEBUG (RequestURL (ApiClient.url r1));
        Log WARNING (RequestFailed what1); Sleep (inject_Z WAIT_TIME);
        Get url q; Log DEBUG (RequestURL (ApiClient.url r2));
        Log WARNING (RequestFailed what2); Sleep (inject_Z WAIT_TIME);
        Log ERROR ExceededMaxRetries])%list.
Proof.
  intros url q Hpage. rewrite handle_request_unfold.
  fold url. set (l := params_ref params w). set (w1 := entered params w).
  destruct (Hpage (sent w1)) as (r0 & H0 & S0 & D0).
  destruct (Hpage (S (sent w1))) as (r1 & H1 & S1 & D1).
  destruct (Hpage (S (S (sent w1)))) as (r2 & H2 & S2 & D2).
  exists r0, r1, r2. do 3 eexists. eexists.
  assert (Hloop : retried transport 3 url l w1 =
            Some (after_requests 3
              [Get url q; Log DEBUG (RequestURL (ApiClient.url r0));
               Log WARNING (RequestFailed "JSONDecodeError");
               Sleep (inject_Z WAIT_TIME);
               Get url q; Log DEBUG (RequestURL (ApiClient.url r1));
               Log WARNING (RequestFailed "JSONDecodeError");
               Sleep (inject_Z WAIT_TIME);
               Get url q; Log DEBUG (RequestURL (ApiClient.url r2));
               Log WARNING (RequestFailed "JSONDecodeError");
               Sleep (inject_Z WAIT_TIME)]
              w1)).
  { cbn [retried].
    rewrite (iteration_undecodable _ url l w1 r0 H0 S0 D0).
    rewrite (iteration_undecodable _ url l (after_requests 1 _ w1) r1 H1 S1 D1).
    rewrite after_requests_compose.
    rewrite (iteration_undecodable _ url l (after_requests 2 _ w1) r2 H2 S2 D2).
    rewrite after_requests_compose. reflexivity. }
  change (Z.to_nat RETRIES) with 3%nat.
  rewrite (attempts_exhausted _ _ _ _ _ _ Hloop), after_requests_compose.
  split; [reflexivity|].
  destruct (entered_frame TMDB_API_KEY params w) as (Ht & Hs & _).
  unfold after_requests. worlds. subst w1. rewrite Ht, Hs.
  split; [lia | reflexivity].
Qed.

End Facts.

(** *** Sample runs *)

Lemma handle_request_sends_key_witness :
  ∃ events,
    trace (_handle_request "k" finds_toy_story "/search/movie" (Some 0%nat)
             caller_world).2 = events ∧
    ∀ u p, Get u p ∈ events →
      p = <["api_key" := "k"]> {[ "query" := "Toy Story" ]}.
Proof.
  destruct (handle_request_sends_key "k" finds_toy_story "/search/movie" (Some 0%nat)
              caller_world) as (events & Htrace & Hget).
  { intros l [= <-]. by eexists. }
  exists events. split; [exact Htrace|]. intros u p Hin.
  destruct (Hget u p Hin) as (_ & _ & _ & Hp). by apply (Hp 0%nat).
Defined.

Lemma handle_request_escaping_exception_witness :
  ∃ m r,
    throttled_for_ages m search_url key_only = Responds r ∧ escapes r OverflowError.
Proof.
  refine (proj2 (handle_request_escaping_exception "k" throttled_for_ages
                   "/search/movie" None (start ∅) OverflowError
                   (_handle_request "k" throttled_for_ages "/search/movie" None
                      (start ∅)).2 _)).
  vm_compute. reflexivity.
Defined.

Lemma handle_request_throttled_throughout_witness :
  ∃ w',
    _handle_request "k" throttled_forever "/search/movie" None (start ∅)
      = (Ret JNull, w') ∧
    sent w' = 3%nat.
Proof.
  destruct (handle_request_throttled_throughout "k" throttled_forever "/search/movie"
              None (start ∅))
    as (r0 & d0 & r1 & d1 & r2 & d2 & w' & Hrun & Hsent & _).
  { intros n. eexists _, 2. split; [reflexivity|]. split; [reflexivity|].
    split; [reflexivity | unfold LONGEST_SLEEP; lia]. }
  by exists w'.
Defined.

Lemma handle_request_negative_retry_after_witness :
  ∃ w',
    _handle_request "k" throttled_backwards "/search/movie" None (start ∅)
      = (Raise ValueError, w') ∧
    sent w' = 1%nat.
Proof.
  destruct (handle_request_negative_retry_after "k" throttled_backwards "/search/movie"
              None (start ∅)
              (Response 429 {[ "retry-after" := "-1" ]} EmptyString search_url Undecodable)
              (-1))
    as (w' & Hrun & Hsent & _);
    [reflexivity | reflexivity | reflexivity | lia |].
  by exists w'.
Defined.

Lemma handle_request_retry_after_beyond_clock_witness :
  ∃ w',
    _handle_request "k" throttled_for_ages "/search/movie" None (start ∅)
      = (Raise OverflowError, w') ∧
    sent w' = 1%nat.
Proof.
  destruct (handle_request_retry_after_beyond_clock "k" throttled_for_ages
              "/search/movie" None (start ∅)
              (Response 429 {[ "retry-after" := "9223372037" ]} EmptyString search_url
                 Undecodable)
              9223372037)
    as (w' & Hrun & Hsent & _);
    [reflexivity | reflexivity | vm_compute; reflexivity | lia |].
  by exists w'.
Defined.

Lemma handle_request_body_error_witness :
  ∃ w',
    _handle_request "k" answers_long_number "/search/movie" None (start ∅)
      = (Raise ValueError, w') ∧
    sent w' = 1%nat.
Proof.
  destruct (handle_request_body_error "k" answers_long_number "/search/movie"
              None (start ∅)
              (Response 200 ∅ EmptyString search_url IntegerTooLong) ValueError)
    as (w' & Hrun & Hsent & _);
    [reflexivity | reflexivity | reflexivity |].
  by exists w'.
Defined.

Lemma handle_request_undecodable_body_witness :
  ∃ w',
    _handle_request "k" answers_page "/search/movie" None (start ∅) = (Ret JNull, w') ∧
    sent w' = 3%nat.
Proof.
  destruct (handle_request_undecodable_body "k" answers_page "/search/movie"
              None (start ∅))
    as (r0 & r1 & r2 & what0 & what1 & what2 & w' & Hrun & Hsent & _).
  { intros n. eexists. split; [reflexivity|]. split; reflexivity. }
  by exists w'.
Defined.

(** *** Further properties of [search_movie] *)

Section Search.

Variable TMDB_API_KEY : string.
Variable transport : nat → string → gmap string string → outcome.

Local Abbreviation attempts := (attempts transport).
Local Abbreviation _handle_request := (_handle_request TMDB_API_KEY transport).
Local Abbreviation search_movie := (search_movie TMDB_API_KEY transport).
Local Abbreviation search_movie_body := (search_movie_body TMDB_API_KEY transport).
Local Abbreviation search_many := (search_many TMDB_API_KEY transport).
Local Abbreviation entered := (entered TMDB_API_KEY).

Ltac worlds :=
  unfold with_sent, with_trace, with_heap, with_fresh, with_cache, with_fs;
  cbn [trace sent heap fresh search_movie_cache fs];
  rewrite <- ?app_assoc; cbn [app].

(** The loop of the request [search_movie] makes. *)
Lemma search_movie_body_unfold title w :
  search_movie_body title w =
    match attempts 3 search_url (fresh w)
            (entered (Some (fresh w)) (search_started title w)) with
    | (Ret result, w1) =>
        (if truthy result then get_results result else new_obj (JArr [])) w1
    | (Raise e, w1) => (Raise e, w1)
    end.
Proof. reflexivity. Qed.

Lemma search_entered_query title w :
  query (fresh w) (entered (Some (fresh w)) (search_started title w)) =
  search_query TMDB_API_KEY title.
Proof.
  unfold query, search_started. cbn.
  by rewrite lookup_alter_eq, lookup_insert_eq.
Qed.

Lemma search_entered_frame title w :
  sent (entered (Some (fresh w)) (search_started title w)) = sent w ∧
  trace (entered (Some (fresh w)) (search_started title w)) = trace w ∧
  search_movie_cache (entered (Some (fresh w)) (search_started title w))
    = search_movie_cache w.
Proof. done. Qed.

Lemma lru_store_find title o cache :
  lru_find title (lru_store title o cache) = Some o.
Proof. cbn. by rewrite String.eqb_refl. Qed.

(** X11: a failure is cached as an empty list.  When the three
    requests of a search that is not cached fail, [search_movie]
    returns a new empty list and stores it; the next search of the
    title returns that list without any request, whatever the network
    would answer by then. *)
Theorem search_movie_caches_failure title w :
  lru_find title (search_movie_cache w) = None →
  (∀ i, (i < 3)%nat →
        ∃ what, transport (sent w + i) search_url (search_query TMDB_API_KEY title)
                = Fails what) →
  ∃ o w' w'',
    search_movie title w = (Ret o, w') ∧ value o = JArr [] ∧
    sent w' = (sent w + 3)%nat ∧
    search_movie title w' = (Ret o, w'') ∧ sent w'' = sent w' ∧
    trace w'' = trace w'.
Proof.
  intros Hmiss Hdown.
  set (w1 := entered (Some (fresh w)) (search_started title w)).
  destruct (search_entered_frame title w) as (Hs & _ & Hc). fold w1 in Hs, Hc.
  assert (Hq := search_entered_query title w). fold w1 in Hq.
  destruct (Hdown 0%nat) as [what0 H0]; [lia|].
  destruct (Hdown 1%nat) as [what1 H1]; [lia|].
  destruct (Hdown 2%nat) as [what2 H2]; [lia|].
  rewrite <- Hq, <- Hs in H0, H1, H2.
  rewrite Nat.add_0_r in H0. rewrite Nat.add_1_r in H1.
  replace (sent w1 + 2)%nat with (S (S (sent w1))) in H2 by lia.
  assert (Hloop : ∃ events, retried transport 3 search_url (fresh w) w1 =
                            Some (after_requests 3 events w1)).
  { cbn [retried].
    rewrite (iteration_fails _ search_url (fresh w) w1 what0 H0).
    rewrite (iteration_fails _ search_url (fresh w) (after_requests 1 _ w1) what1 H1).
    rewrite after_requests_compose.
    rewrite (iteration_fails _ search_url (fresh w) (after_requests 2 _ w1) what2 H2).
    rewrite after_requests_compose. eauto. }
  destruct Hloop as [events Hloop].
  assert (Hbody : search_movie_body title w =
            new_obj (JArr [])
              (after_requests 0 [Log ERROR ExceededMaxRetries]
                 (after_requests 3 events w1))).
  { rewrite search_movie_body_unfold. fold w1.
    by rewrite (attempts_exhausted _ _ _ _ _ _ Hloop). }
  unfold ApiClient.search_movie at 1. rewrite Hmiss, Hbody. cbn [new_obj].
  eexists _, _, _. split; [reflexivity|]. split; [reflexivity|].
  split; [unfold after_requests; worlds; lia|].
  erewrite search_movie_hit by apply lru_store_find.
  split; [reflexivity|]. by split.
Qed.

(** X12: when the first answer of a search that is not cached is 200
    with a JSON object, [search_movie] returns the value of its
    ["results"] entry, or a new empty list when the object has no such
    entry, after that one request, and stores what it returns. *)
Theorem search_movie_results title w r fields :
  lru_find title (search_movie_cache w) = None →
  transport (sent w) search_url (search_query TMDB_API_KEY title) = Responds r →
  status_code r = 200 → json_body r = Some (JObj fields) →
  ∃ o w',
    search_movie title w = (Ret o, w') ∧
    value o = default (JArr []) (fields !! "results") ∧
    sent w' = S (sent w) ∧
    lru_find title (search_movie_cache w') = Some o.
Proof.
  intros Hmiss Hr H200 Hbody.
  set (w1 := entered (Some (fresh w)) (search_started title w)).
  destruct (search_entered_frame title w) as (Hs & _ & Hc). fold w1 in Hs, Hc.
  assert (Hq := search_entered_query title w). fold w1 in Hq.
  rewrite <- Hq, <- Hs in Hr.
  assert (Hrun : attempts 3 search_url (fresh w) w1 =
            (Ret (JObj fields),
             after_requests 1 [Get search_url (query (fresh w) w1);
                               Log DEBUG (RequestURL (url r))] w1)).
  { cbn [ApiClient.attempts]. unfold bind at 1.
    by rewrite (iteration_ok _ search_url (fresh w) w1 r _ Hr H200 Hbody). }
  unfold ApiClient.search_movie. rewrite Hmiss, search_movie_body_unfold.
  fold w1. rewrite Hrun.
  assert (Hget : ∀ w2, ∃ o,
            (if truthy (JObj fields) then get_results (JObj fields)
             else new_obj (JArr [])) w2 = (Ret o, with_fresh (S (fresh w2)) w2) ∧
            value o = default (JArr []) (fields !! "results")).
  { intros w2. cbn [truthy get_results].
    destruct (fields !! "results") as [v|] eqn:Hresults.
    - assert (Hsize : Nat.eqb (size fields) 0 = false).
      { apply Nat.eqb_neq. intros Hzero. apply map_size_empty_iff in Hzero.
        by rewrite Hzero, lookup_empty in Hresults. }
      rewrite Hsize. cbn. by eexists.
    - destruct (negb _); cbn; by eexists. }
  destruct (Hget (after_requests 1 [Get search_url (query (fresh w) w1);
                                    Log DEBUG (RequestURL (url r))] w1))
    as (o & -> & Hvalue).
  eexists o, _. split; [reflexivity|]. split; [done|].
  split; [by unfold after_requests; worlds|]. apply lru_store_find.
Qed.

(** [search_movie] raises what its request or [get] raises, and then
    stores nothing. *)
Lemma search_movie_body_raises title w e w' :
  search_movie_body title w = (Raise e, w') →
  is_RequestException e = false.
Proof.
  rewrite search_movie_body_unfold.
  destruct (attempts 3 _ _ _) as [[result|e0] w1] eqn:Hrun.
  - destruct (truthy result); [|done].
    destruct result; cbn; try (by intros [= <- _]).
    by destruct (_ !! _).
  - intros [= <- _]. by apply attempts_raises in Hrun as [? _].
Qed.

(** X13: a call of [search_movie] that raises stores nothing: the
    cache is what it was and has no entry for the title, so the next
    search of the title asks the network again.  What it raises is
    never a [RequestException]: transport errors end in the empty
    list. *)
Theorem search_movie_raises title w e w' :
  search_movie title w = (Raise e, w') →
  is_RequestException e = false ∧
  search_movie_cache w' = search_movie_cache w ∧
  lru_find title (search_movie_cache w') = None.
Proof.
  unfold ApiClient.search_movie.
  destruct (lru_find title (search_movie_cache w)) eqn:Hfind; [done|].
  assert (Hcache := search_movie_body_cache TMDB_API_KEY transport title w).
  destruct (search_movie_body title w) as [[o|e0] w1] eqn:Hbody; [done|].
  intros [= <- <-]. cbn [snd] in Hcache.
  split; [by eapply search_movie_body_raises|]. split; [done|]. by rewrite Hcache.
Qed.

(** X14: an answer 200 whose JSON is true in a test but is no object
    (a non-empty array or string, a number other than zero, [true])
    makes [search_movie] raise [AttributeError] after that one request. *)
Theorem search_movie_not_an_object title w r body :
  lru_find title (search_movie_cache w) = None →
  transport (sent w) search_url (search_query TMDB_API_KEY title) = Responds r →
  status_code r = 200 → json_body r = Some body →
  truthy body = true → (∀ fields, body ≠ JObj fields) →
  ∃ w',
    search_movie title w = (Raise AttributeError, w') ∧
    sent w' = S (sent w) ∧
    search_movie_cache w' = search_movie_cache w.
Proof.
  intros Hmiss Hr H200 Hbody Htrue Hshape.
  set (w1 := entered (Some (fresh w)) (search_started title w)).
  destruct (search_entered_frame title w) as (Hs & _ & Hc). fold w1 in Hs, Hc.
  assert (Hq := search_entered_query title w). fold w1 in Hq.
  rewrite <- Hq, <- Hs in Hr.
  unfold ApiClient.search_movie. rewrite Hmiss, search_movie_body_unfold.
  fold w1. cbn [ApiClient.attempts]. unfold bind at 1.
  rewrite (iteration_ok _ search_url (fresh w) w1 r _ Hr H200 Hbody).
  cbn [ret]. rewrite Htrue.
  destruct body as [| | | | | |fields]; try (by destruct (Hshape fields));
    (eexists; split; [reflexivity|]; by unfold after_requests; worlds).
Qed.

(** *** The cache stays in good order *)

Lemma lru_find_None key (cache : list (string * obj)) :
  lru_find key cache = None → key ∉ cache.*1.
Proof.
  induction cache as [|[k v] cache IH]; cbn; [intros _; apply not_elem_of_nil|].
  destruct (String.eqb k key) eqn:Hk; [done|]. apply String.eqb_neq in Hk.
  intros H. apply not_elem_of_cons. split; [congruence | by apply IH].
Qed.

Lemma lru_find_Some key v (cache : list (string * obj)) :
  lru_find key cache = Some v → (key, v) ∈ cache.
Proof.
  induction cache as [|[k x] cache IH]; cbn; [done|].
  destruct (String.eqb k key) eqn:Hk.
  - apply String.eqb_eq in Hk as ->. intros [= ->]. by left.
  - intros H. right. by apply IH.
Qed.

Lemma lru_touch_ok key v cache :
  lru_find key cache = Some v → lru_ok cache → lru_ok (lru_touch key v cache).
Proof.
  intros Hfind [Hdup Hsize]. unfold lru_touch. split.
  - cbn. apply NoDup_cons. split.
    + intros [[k x] [Hk Hin]]%list_elem_of_fmap. cbn in Hk. subst k.
      apply list_elem_of_filter in Hin as [Hne _]. by apply Hne.
    + eapply sublist_NoDup; [exact Hdup|]. apply fmap_sublist, sublist_filter.
  - cbn [length].
    assert (length (filter (λ e : string * obj, e.1 ≠ key) cache) < length cache)%nat;
      [|lia].
    eapply length_filter_lt; [by apply lru_find_Some|]. cbn. tauto.
Qed.

Lemma lru_store_ok key v cache :
  lru_find key cache = None → lru_ok cache → lru_ok (lru_store key v cache).
Proof.
  intros Hfind [Hdup Hsize]. unfold lru_store. split.
  - rewrite fmap_take. eapply sublist_NoDup; [|apply sublist_take].
    cbn. apply NoDup_cons. split; [by apply lru_find_None | done].
  - rewrite length_take. lia.
Qed.

Lemma search_movie_ok title w :
  lru_ok (search_movie_cache w) → lru_ok (search_movie_cache (search_movie title w).2).
Proof.
  intros Hok. unfold ApiClient.search_movie.
  destruct (lru_find title (search_movie_cache w)) as [v|] eqn:Hfind.
  - cbn. by apply lru_touch_ok.
  - assert (Hcache := search_movie_body_cache TMDB_API_KEY transport title w).
    destruct (search_movie_body title w) as [[o|e] w1]; cbn [snd] in Hcache |- *.
    + unfold with_cache. cbn [search_movie_cache]. rewrite Hcache.
      by apply lru_store_ok.
    + by rewrite Hcache.
Qed.

(** X15: the cache of [search_movie] stays in good order through any
    sequence of searches: it never holds a title twice and never more
    than 500 entries. *)
Theorem search_movie_cache_ok titles w :
  lru_ok (search_movie_cache w) →
  lru_ok (search_movie_cache (search_many titles w)).
Proof.
  revert w. induction titles as [|title titles IH]; intros w Hok; [done|].
  cbn [ApiClient.search_many fold_left]. apply IH. by apply search_movie_ok.
Qed.

End Search.

Lemma search_movie_caches_failure_witness :
  ∃ o w' w'',
    search_movie "k" down_then_up "Toy Story" (start ∅) = (Ret o, w') ∧
    value o = JArr [] ∧
    search_movie "k" down_then_up "Toy Story" w' = (Ret o, w'') ∧
    sent w'' = 3%nat.
Proof.
  destruct (search_movie_caches_failure "k" down_then_up "Toy Story" (start ∅))
    as (o & w' & w'' & Hfirst & Hvalue & Hsent & Hsecond & Hsame & _).
  { reflexivity. }
  { intros i Hi. exists "ConnectionError". unfold down_then_up.
    change (sent (start ∅) + i)%nat with i.
    by rewrite (proj2 (Nat.ltb_lt _ _) Hi). }
  exists o, w', w''. split; [done|]. split; [done|]. split; [done|].
  by rewrite Hsame, Hsent.
Defined.

Lemma search_movie_results_witness :
  ∃ o w',
    search_movie "k" finds_toy_story "Toy Story" (start ∅) = (Ret o, w') ∧
    value o = JArr [JObj {[ "id" := JInt 862 ]}] ∧ sent w' = 1%nat.
Proof.
  destruct (search_movie_results "k" finds_toy_story "Toy Story" (start ∅)
              (Response 200 ∅ EmptyString search_url (Document toy_story))
              {[ "results" := JArr [JObj {[ "id" := JInt 862 ]}] ]})
    as (o & w' & Hrun & Hvalue & Hsent & _);
    [reflexivity | reflexivity | reflexivity | reflexivity |].
  exists o, w'. split; [done|]. split; [|done].
  rewrite Hvalue. vm_compute. reflexivity.
Defined.

Lemma search_movie_raises_witness :
  search_movie_cache (search_movie "k" answers_list "Toy Story" (start ∅)).2 = [].
Proof.
  refine (proj1 (proj2 (search_movie_raises "k" answers_list "Toy Story" (start ∅)
                          AttributeError
                          (search_movie "k" answers_list "Toy Story" (start ∅)).2 _))).
  vm_compute. reflexivity.
Defined.

Lemma search_movie_not_an_object_witness :
  ∃ w',
    search_movie "k" answers_list "Toy Story" (start ∅) = (Raise AttributeError, w') ∧
    sent w' = 1%nat.
Proof.
  destruct (search_movie_not_an_object "k" answers_list "Toy Story" (start ∅)
              (Response 200 ∅ EmptyString search_url (Document (JArr [JInt 1])))
              (JArr [JInt 1]))
    as (w' & Hrun & Hsent & _);
    [reflexivity | reflexivity | reflexivity | reflexivity | reflexivity | done |].
  by exists w'.
Defined.

Lemma search_movie_cache_ok_witness :
  lru_ok (search_movie_cache
            (search_many "k" finds_nothing ["Heat"; "Casino"; "Heat"] (start ∅))).
Proof.
  apply (search_movie_cache_ok "k" finds_nothing ["Heat"; "Casino"; "Heat"] (start ∅)).
  split; [constructor | cbn; lia].
Defined.

(** *** Further properties of [map_movielens_to_tmdb] *)

Section Mapping.

Variable TMDB_API_KEY : string.
Variable transport : nat → string → gmap string string → outcome.

Local Abbreviation attempts := (attempts transport).
Local Abbreviation search_movie := (search_movie TMDB_API_KEY transport).
Local Abbreviation search_movie_body := (search_movie_body TMDB_API_KEY transport).
Local Abbreviation map_row := (map_row TMDB_API_KEY transport).
Local Abbreviation map_rows := (map_rows TMDB_API_KEY transport).
Local Abbreviation map_movielens_to_tmdb := (map_movielens_to_tmdb TMDB_API_KEY transport).
Local Abbreviation entered := (entered TMDB_API_KEY).

Ltac worlds :=
  unfold with_sent, with_trace, with_heap, with_fresh, with_cache, with_fs;
  cbn [trace sent heap fresh search_movie_cache fs];
  rewrite <- ?app_assoc; cbn [app].

Lemma pauses_in_app e1 e2 :
  pauses_in (e1 ++ e2) = (pauses_in e1 + pauses_in e2)%nat.
Proof. unfold pauses_in. by rewrite filter_app, length_app. Qed.

Lemma call_events_no_pause url q events :
  Forall (call_event url q) events → pauses_in events = 0%nat.
Proof.
  unfold pauses_in. induction 1 as [|e events He _ IH]; [done|].
  rewrite filter_cons_False; [done|].
  destruct e as [u p|secs|level record]; cbn; try done.
  destruct He as (d & _ & ->). unfold Qeq_bool. cbn.
  intros Heq. apply Z.eqb_eq in Heq. lia.
Qed.

(** What a search adds to the world: at most three requests, no pause,
    no change to the files. *)
Lemma search_movie_events title w :
  ∃ events,
    trace (search_movie title w).2 = (trace w ++ events)%list ∧
    sent (search_movie title w).2 = (sent w + requests_in events)%nat ∧
    (requests_in events ≤ 3)%nat ∧ pauses_in events = 0%nat ∧
    fs (search_movie title w).2 = fs w.
Proof.
  unfold ApiClient.search_movie.
  destruct (lru_find title (search_movie_cache w)) as [v|].
  - exists []. unfold with_cache. cbn [snd trace sent fs].
    rewrite app_nil_r. change (requests_in []) with 0%nat.
    change (pauses_in []) with 0%nat. repeat split; lia.
  - rewrite search_movie_body_unfold.
    destruct (attempts_events transport 3 search_url (fresh w)
                (entered (Some (fresh w)) (search_started title w)))
      as (events & Hw1 & Hall & Hle & _).
    exists events.
    assert (Hpause := call_events_no_pause _ _ _ Hall).
    assert (Hshape : ∀ w2 : world,
              trace w2 = (trace w ++ events)%list ∧
              sent w2 = (sent w + requests_in events)%nat ∧
              (requests_in events ≤ 3)%nat ∧ pauses_in events = 0%nat ∧
              fs w2 = fs w →
              ∀ n c,
              trace (with_cache c (with_fresh n w2)) = (trace w ++ events)%list ∧
              sent (with_cache c (with_fresh n w2)) = (sent w + requests_in events)%nat ∧
              (requests_in events ≤ 3)%nat ∧ pauses_in events = 0%nat ∧
              fs (with_cache c (with_fresh n w2)) = fs w) by done.
    assert (Hafter :
              trace (after_requests (requests_in events) events
                       (entered (Some (fresh w)) (search_started title w)))
                = (trace w ++ events)%list ∧
              sent (after_requests (requests_in events) events
                      (entered (Some (fresh w)) (search_started title w)))
                = (sent w + requests_in events)%nat ∧
              (requests_in events ≤ 3)%nat ∧ pauses_in events = 0%nat ∧
              fs (after_requests (requests_in events) events
                    (entered (Some (fresh w)) (search_started title w))) = fs w).
    { unfold after_requests. worlds. repeat split; try done. cbn. lia. }
    destruct (attempts 3 _ _ _) as [[result|e] w1]; cbn [snd] in Hw1; subst w1;
      [|exact Hafter].
    destruct (truthy result).
    + destruct result as [| | | | | |fields]; try exact Hafter.
      cbn [get_results]. destruct (fields !! "results");
        cbn [new_obj]; by apply Hshape.
    + cbn [new_obj]. by apply Hshape.
Qed.

(** The bookkeeping of one row changes the mapping, not the world. *)
Lemma store_first_id_pure (key : Z) (results : json) (mapping : gmap Z json) w :
  ∃ r,
    (if truthy results
     then bind (first_item results)
            (λ first, bind (item_id first) (λ id, ret (<[key := id]> mapping)))
     else ret mapping) w = (r, w).
Proof.
  destruct (truthy results); [|by eexists].
  unfold bind, first_item.
  destruct results as [| | | |[|c s]|[|first others]|]; try (by eexists).
  cbn. unfold item_id. destruct first as [| | | | | |fields]; try (by eexists).
  destruct (fields !! "id"); by eexists.
Qed.

Lemma pause_runs w :
  time_sleep (1 # 4) w = (Ret tt, with_trace (λ t, t ++ [Sleep (1 # 4)])%list w).
Proof. reflexivity. Qed.

(** What one row adds to the world. *)
Lemma map_row_events row mapping w r w' :
  map_row row mapping w = (r, w') →
  ∃ events,
    trace w' = (trace w ++ events)%list ∧
    sent w' = (sent w + requests_in events)%nat ∧
    (requests_in events ≤ 3)%nat ∧
    fs w' = fs w ∧
    (∀ after, r = Ret after → pauses_in events = 1%nat).
Proof.
  unfold ApiClient.map_row. unfold bind at 1.
  destruct (search_movie_events (first_piece (py_split " (" (title row))) w)
    as (events & Ht & Hs & Hle & Hp & Hf).
  destruct (search_movie _ w) as [[results|e] ws]; cbn [snd] in Ht, Hs, Hf.
  - unfold bind at 1.
    destruct (store_first_id_pure (movieId row) (value results) mapping ws)
      as [[m1|e] ->].
    + unfold bind at 1. rewrite pause_runs. intros [= <- <-].
      exists (events ++ [Sleep (1 # 4)])%list. worlds.
      rewrite Ht, Hs, Hf, requests_in_app, pauses_in_app, Hp.
      change (requests_in [Sleep (1 # 4)]) with 0%nat.
      change (pauses_in [Sleep (1 # 4)]) with 1%nat.
      rewrite <- app_assoc. repeat split; try done; lia.
    + intros [= <- <-]. exists events. by repeat split.
  - intros [= <- <-]. exists events. by repeat split.
Qed.

(** What the loop over the rows adds to the world. *)
Lemma map_rows_events rows mapping w r w' :
  map_rows rows mapping w = (r, w') →
  ∃ events,
    trace w' = (trace w ++ events)%list ∧
    sent w' = (sent w + requests_in events)%nat ∧
    (requests_in events ≤ 3 * length rows)%nat ∧
    fs w' = fs w ∧
    (∀ final, r = Ret final → pauses_in events = length rows).
Proof.
  revert mapping w. induction rows as [|row rows IH]; intros mapping w.
  - intros [= <- <-]. exists []. rewrite app_nil_r.
    change (requests_in []) with 0%nat. change (pauses_in []) with 0%nat.
    repeat split; try done; cbn [length]; lia.
  - cbn [ApiClient.map_rows]. unfold bind at 1.
    destruct (map_row row mapping w) as [[m1|e] w1] eqn:Hrow;
      destruct (map_row_events _ _ _ _ _ Hrow) as (e1 & Ht1 & Hs1 & Hle1 & Hf1 & Hp1).
    + intros Hrest.
      destruct (IH _ _ Hrest) as (e2 & Ht2 & Hs2 & Hle2 & Hf2 & Hp2).
      exists (e1 ++ e2)%list.
      rewrite Ht2, Hs2, Hf2, Ht1, Hs1, Hf1, requests_in_app, pauses_in_app.
      rewrite <- app_assoc. repeat split; try done; try (cbn [length]; lia).
      intros final Hfinal. rewrite (Hp1 m1 eq_refl), (Hp2 final Hfinal). done.
    + intros [= <- <-]. exists e1. repeat split; try done. cbn [length]. lia.
Qed.

Lemma map_movielens_loads rows document w :
  fs w !! cache_file = Some (File (Some document)) →
  map_movielens_to_tmdb rows w = (Ret (Loaded document), w).
Proof.
  intros Hfile.
  unfold ApiClient.map_movielens_to_tmdb, bind, os_path_exists, json_load_file.
  rewrite Hfile. rewrite bool_decide_true by (by eexists).
  cbv beta iota. by rewrite Hfile.
Qed.

(** A run without a cache file is the loop followed by the write. *)
Lemma map_movielens_builds rows w :
  fs w !! cache_file = None →
  map_movielens_to_tmdb rows w =
    match map_rows rows ∅ w with
    | (Ret mapping, w1) =>
        match json_dump_file mapping cache_file w1 with
        | (Ret _, w2) => (Ret (Built mapping), w2)
        | (Raise e, w2) => (Raise e, w2)
        end
    | (Raise e, w1) => (Raise e, w1)
    end.
Proof.
  intros Hnone. unfold ApiClient.map_movielens_to_tmdb. unfold bind at 1.
  unfold os_path_exists. rewrite Hnone.
  rewrite bool_decide_false by (by intros [? ?]).
  cbv beta iota. unfold bind at 1.
  destruct (map_rows rows ∅ w) as [[mapping|e] w1]; [|done].
  unfold bind at 1. by destruct (json_dump_file mapping cache_file w1) as [[[]|e] w2].
Qed.

Lemma json_dump_file_fs mapping path w r w' :
  json_dump_file mapping path w = (r, w') →
  (r = Ret tt ∧ w' = with_fs (<[path := File (Some (dumped mapping))]> (fs w)) w) ∨
  (r = Raise OSError ∧ w' = w).
Proof.
  unfold json_dump_file.
  destruct (match fs w !! path with Some Directory => _ | _ => _ end);
    intros [= <- <-]; auto.
Qed.

Lemma dumped_kmap (mapping : gmap Z json) : dumped mapping = JObj (kmap pretty mapping).
Proof. reflexivity. Qed.

(** X16: what a run wrote, the next run reads.  After a run that
    returned the mapping it built, any further run returns the written
    document without touching the world, whatever rows it is given; the
    document is an object whose keys are the decimal texts of the
    [movieId]s, with the same values. *)
Theorem mapping_written_then_read rows w mapping w' :
  map_movielens_to_tmdb rows w = (Ret (Built mapping), w') →
  (∀ rows', map_movielens_to_tmdb rows' w' = (Ret (Loaded (dumped mapping)), w')) ∧
  ∃ fields,
    dumped mapping = JObj fields ∧
    (∀ k : Z, fields !! pretty k = mapping !! k) ∧
    (∀ key v, fields !! key = Some v → ∃ k : Z, key = pretty k ∧ mapping !! k = Some v).
Proof.
  intros Hrun. split.
  - intros rows'. apply map_movielens_loads.
    destruct (fs w !! cache_file) as [node|] eqn:Hfile.
    + unfold ApiClient.map_movielens_to_tmdb, bind, os_path_exists, json_load_file
        in Hrun.
      rewrite Hfile in Hrun. rewrite bool_decide_true in Hrun by (by eexists).
      cbv beta iota in Hrun. rewrite Hfile in Hrun.
      by destruct node as [|[document|]].
    + rewrite (map_movielens_builds _ _ Hfile) in Hrun.
      destruct (map_rows rows ∅ w) as [[m1|e] w1]; [|done].
      destruct (json_dump_file m1 cache_file w1) as [[[]|e] w2] eqn:Hdump; [|done].
      injection Hrun as -> ->.
      apply json_dump_file_fs in Hdump as [[_ ->]|[? _]]; [|done].
      cbn. by rewrite lookup_insert_eq.
  - exists (kmap pretty mapping). split; [apply dumped_kmap|]. split.
    + intros k. apply (lookup_kmap pretty).
    + intros key v Hkey. apply (lookup_kmap_Some pretty) in Hkey. exact Hkey.
Qed.

(** X17: the files change only by the write that ends a run which
    built a mapping.  A run that raises, in the lookups or in the
    write, or that read the cache file, leaves every file as it was. *)
Theorem mapping_touches_files_last rows w :
  fs (map_movielens_to_tmdb rows w).2 = fs w ∨
  ∃ mapping,
    (map_movielens_to_tmdb rows w).1 = Ret (Built mapping) ∧
    fs w !! cache_file = None ∧
    fs (map_movielens_to_tmdb rows w).2 =
      <[cache_file := File (Some (dumped mapping))]> (fs w).
Proof.
  destruct (fs w !! cache_file) as [node|] eqn:Hfile.
  - left.
    unfold ApiClient.map_movielens_to_tmdb, bind, os_path_exists, json_load_file.
    rewrite Hfile. rewrite bool_decide_true by (by eexists).
    cbv beta iota. rewrite Hfile. by destruct node as [|[document|]].
  - rewrite (map_movielens_builds _ _ Hfile).
    destruct (map_rows rows ∅ w) as [[m1|e] w1] eqn:Hrows;
      destruct (map_rows_events _ _ _ _ _ Hrows) as (events & _ & _ & _ & Hfs & _);
      [|by left].
    destruct (json_dump_file m1 cache_file w1) as [r w2] eqn:Hdump.
    apply json_dump_file_fs in Hdump as [[-> ->]|[-> ->]].
    + right. exists m1. cbn. by rewrite Hfs.
    + by left.
Qed.

(** X18: a run issues at most three requests for each row, whatever
    the network answers and however the run ends. *)
Theorem mapping_request_budget rows w :
  (sent (map_movielens_to_tmdb rows w).2 ≤ sent w + 3 * length rows)%nat.
Proof.
  destruct (fs w !! cache_file) as [node|] eqn:Hfile.
  - unfold ApiClient.map_movielens_to_tmdb, bind, os_path_exists, json_load_file.
    rewrite Hfile. rewrite bool_decide_true by (by eexists).
    cbv beta iota. rewrite Hfile. destruct node as [|[document|]]; cbn; lia.
  - rewrite (map_movielens_builds _ _ Hfile).
    destruct (map_rows rows ∅ w) as [[m1|e] w1] eqn:Hrows;
      destruct (map_rows_events _ _ _ _ _ Hrows) as (events & _ & Hs & Hle & _);
      [|cbn; lia].
    destruct (json_dump_file m1 cache_file w1) as [r w2] eqn:Hdump.
    apply json_dump_file_fs in Hdump as [[-> ->]|[-> ->]]; cbn; lia.
Qed.

(** X19: a run that builds a mapping pauses a quarter of a second
    exactly once for each row, also for the rows whose search was
    answered from the cache. *)
Theorem mapping_pauses_once_per_row rows w mapping w' :
  map_movielens_to_tmdb rows w = (Ret (Built mapping), w') →
  ∃ events,
    trace w' = (trace w ++ events)%list ∧ pauses_in events = length rows.
Proof.
  intros Hrun. destruct (fs w !! cache_file) as [node|] eqn:Hfile.
  - unfold ApiClient.map_movielens_to_tmdb, bind, os_path_exists, json_load_file
      in Hrun.
    rewrite Hfile in Hrun. rewrite bool_decide_true in Hrun by (by eexists).
    cbv beta iota in Hrun. rewrite Hfile in Hrun.
    by destruct node as [|[document|]].
  - rewrite (map_movielens_builds _ _ Hfile) in Hrun.
    destruct (map_rows rows ∅ w) as [[m1|e] w1] eqn:Hrows; [|done].
    destruct (map_rows_events _ _ _ _ _ Hrows) as (events & Ht & _ & _ & _ & Hp).
    destruct (json_dump_file m1 cache_file w1) as [r w2] eqn:Hdump.
    apply json_dump_file_fs in Hdump as [[-> ->]|[-> ->]]; [|done].
    injection Hrun as _ <-. exists events. split; [done|]. by apply (Hp m1).
Qed.

(** X20: without the directory of the cache file the lookups are made
    all the same, and the run then ends with [OSError]: no mapping is
    returned and nothing is written. *)
Theorem mapping_needs_directory rows w mapping w1 :
  fs w !! cache_file = None →
  fs w !! "data/processed" ≠ Some Directory →
  map_rows rows ∅ w = (Ret mapping, w1) →
  map_movielens_to_tmdb rows w = (Raise OSError, w1) ∧ fs w1 = fs w.
Proof.
  intros Hfile Hdir Hrows.
  destruct (map_rows_events _ _ _ _ _ Hrows) as (events & _ & _ & _ & Hfs & _).
  split; [|done]. rewrite (map_movielens_builds _ _ Hfile), Hrows.
  unfold json_dump_file. rewrite Hfs, Hfile.
  change (dirname cache_file) with (Some "data/processed").
  cbv beta iota.
  destruct (fs w !! "data/processed") as [[|document]|] eqn:Hnode;
    [by destruct Hdir | done | done].
Qed.

(** X21: a table without rows gives the empty mapping: no request, no
    pause, and the cache file is written with an empty object. *)
Theorem mapping_of_no_rows w :
  fs w !! cache_file = None →
  fs w !! "data/processed" = Some Directory →
  map_movielens_to_tmdb [] w =
    (Ret (Built ∅), with_fs (<[cache_file := File (Some (JObj ∅))]> (fs w)) w).
Proof.
  intros Hfile Hdir. rewrite (map_movielens_builds _ _ Hfile).
  cbn [ApiClient.map_rows ret]. unfold json_dump_file. rewrite Hfile.
  change (dirname cache_file) with (Some "data/processed").
  cbv beta iota. rewrite Hdir. reflexivity.
Qed.

End Mapping.

Lemma mapping_written_then_read_witness :
  let first :=
    map_movielens_to_tmdb "k" finds_only_toy_story two_movies (start processed) in
  map_movielens_to_tmdb "k" finds_only_toy_story [] first.2
  = (Ret (Loaded (dumped {[ 1 := JInt 862 ]})), first.2).
Proof.
  intros first.
  assert (Hfirst : map_movielens_to_tmdb "k" finds_only_toy_story two_movies
                     (start processed)
                   = (Ret (Built {[ 1 := JInt 862 ]}), first.2))
    by (vm_compute; reflexivity).
  exact (proj1 (mapping_written_then_read "k" finds_only_toy_story two_movies
                  (start processed) {[ 1 := JInt 862 ]} first.2 Hfirst) []).
Defined.

Lemma mapping_pauses_once_per_row_witness :
  ∃ events,
    trace (map_movielens_to_tmdb "k" finds_only_toy_story two_movies
             (start processed)).2 = events ∧
    pauses_in events = 2%nat.
Proof.
  assert (Hfirst : map_movielens_to_tmdb "k" finds_only_toy_story two_movies
                     (start processed)
                   = (Ret (Built {[ 1 := JInt 862 ]}),
                      (map_movielens_to_tmdb "k" finds_only_toy_story two_movies
                         (start processed)).2))
    by (vm_compute; reflexivity).
  exact (mapping_pauses_once_per_row "k" finds_only_toy_story two_movies
           (start processed) {[ 1 := JInt 862 ]} _ Hfirst).
Defined.

Lemma mapping_needs_directory_witness :
  (map_movielens_to_tmdb "k" finds_only_toy_story two_movies (start no_directory)).1
  = Raise OSError.
Proof.
  assert (Hrows : map_rows "k" finds_only_toy_story two_movies ∅ (start no_directory)
                  = (Ret {[ 1 := JInt 862 ]},
                     (map_rows "k" finds_only_toy_story two_movies ∅
                        (start no_directory)).2))
    by (vm_compute; reflexivity).
  destruct (mapping_needs_directory "k" finds_only_toy_story two_movies
              (start no_directory) {[ 1 := JInt 862 ]} _ eq_refl
              ltac:(discriminate) Hrows) as [Hrun _].
  by rewrite Hrun.
Defined.

Lemma mapping_of_no_rows_witness :
  (map_movielens_to_tmdb "k" unreachable [] (start processed)).1 = Ret (Built ∅).
Proof.
  by rewrite (mapping_of_no_rows "k" unreachable (start processed) eq_refl eq_refl).
Defined.

(** *** Titles that differ only after the first parenthesis *)

Section Collisions.

Variable TMDB_API_KEY : string.
Variable transport : nat → string → gmap string string → outcome.

Local Abbreviation search_movie := (search_movie TMDB_API_KEY transport).
Local Abbreviation map_row := (map_row TMDB_API_KEY transport).
Local Abbreviation map_rows := (map_rows TMDB_API_KEY transport).
Local Abbreviation map_movielens_to_tmdb := (map_movielens_to_tmdb TMDB_API_KEY transport).

(** A row changes the cache as its search does. *)
Lemma map_row_cache row mapping w r w' :
  map_row row mapping w = (r, w') →
  search_movie_cache w' =
  search_movie_cache (search_movie (first_piece (py_split " (" (title row))) w).2.
Proof.
  unfold ApiClient.map_row. unfold bind at 1.
  destruct (search_movie _ w) as [[results|e] ws]; [|by intros [= _ <-]].
  unfold bind at 1.
  destruct (store_first_id_pure (movieId row) (value results) mapping ws)
    as [[m1|e] ->]; [|by intros [= _ <-]].
  unfold bind at 1. rewrite pause_runs. by intros [= _ <-].
Qed.

Lemma map_rows_keeps key v rows mapping w r w' n :
  map_rows rows mapping w = (r, w') →
  (n + length rows ≤ MAXSIZE)%nat →
  lru_find key (take n (search_movie_cache w)) = Some v →
  lru_find key (take (n + length rows) (search_movie_cache w')) = Some v.
Proof.
  revert mapping w n. induction rows as [|row rows IH]; intros mapping w n.
  - intros [= _ <-] _. by rewrite Nat.add_0_r.
  - cbn [ApiClient.map_rows length]. unfold bind at 1.
    destruct (map_row row mapping w) as [[m1|e] w1] eqn:Hrow; intros Hrest Hn Hfound.
    + replace (n + S (length rows))%nat with (S n + length rows)%nat by lia.
      eapply IH; [exact Hrest | lia |].
      rewrite (map_row_cache _ _ _ _ _ Hrow).
      apply search_movie_keeps; [lia | done].
    + injection Hrest as _ <-.
      rewrite (map_row_cache _ _ _ _ _ Hrow).
      eapply lru_find_take_le;
        [|apply (search_movie_keeps TMDB_API_KEY transport key v _ n w); [lia|done]].
      lia.
Qed.

(** What a row that completes stores, by the result of its search. *)
Lemma map_row_stores row mapping w after w' results ws :
  map_row row mapping w = (Ret after, w') →
  search_movie (first_piece (py_split " (" (title row))) w = (Ret results, ws) →
  after = match first_id (value results) with
          | Some id => <[movieId row := id]> mapping
          | None => mapping
          end.
Proof.
  intros Hrow Hsearch.
  destruct (map_row_returns _ _ _ _ _ _ _ Hrow)
    as (results' & ws' & Hsearch' & Hcases).
  rewrite Hsearch in Hsearch'. injection Hsearch' as <- <-.
  destruct Hcases as [[Hfalse ->]|(first & others & fields & id & Hv & -> & Hid & ->)].
  - destruct (value results) as [| | | | |[|[| | | | | |fields] others]|]; try done.
  - rewrite Hv. cbn. by rewrite Hid.
Qed.

Lemma NoDup_two_keys (l1 l2 l3 : list Z) (a b : Z) :
  NoDup (l1 ++ a :: l2 ++ b :: l3)%list →
  a ≠ b ∧ (a ∉ l1) ∧ (a ∉ l2) ∧ (a ∉ l3) ∧ (b ∉ l1) ∧ (b ∉ l2) ∧ (b ∉ l3).
Proof.
  rewrite NoDup_app, NoDup_cons, NoDup_app, NoDup_cons.
  intros (_ & H1 & Ha & _ & H2 & Hb & _).
  rewrite elem_of_app, elem_of_cons in Ha.
  repeat split; try tauto.
  - intros Hin. apply (H1 a Hin). by left.
  - intros Hin. apply (H1 b Hin). right. apply elem_of_app. right. by left.
  - intros Hin. apply (H2 b Hin). by left.
Qed.

(** X27: two rows whose titles are the same up to the first [" ("],
    such as a film and its remake, with fewer than 500 rows between
    them, get the same entry: the second search is answered from the
    cache, and both [movieId]s are mapped to the ["id"] of the first
    candidate of the one search that was made, or both are left out. *)
Theorem mapping_same_title_same_id pre first_row between second_row post
    w mapping w' :
  map_movielens_to_tmdb (pre ++ first_row :: between ++ second_row :: post)%list w
    = (Ret (Built mapping), w') →
  first_piece (py_split " (" (title first_row))
    = first_piece (py_split " (" (title second_row)) →
  (length between < MAXSIZE)%nat →
  NoDup (movieId <$> (pre ++ first_row :: between ++ second_row :: post)%list) →
  mapping !! movieId first_row = mapping !! movieId second_row.
Proof.
  intros Hrun Htitle Hnear Hkeys.
  rewrite fmap_app, fmap_cons, fmap_app, fmap_cons in Hkeys.
  apply NoDup_two_keys in Hkeys as (Hab & Ha1 & Ha2 & Ha3 & Hb1 & Hb2 & Hb3).
  assert (Hother : ∀ (l : list movie_row) k,
            k ∉ movieId <$> l → ∀ row, row ∈ l → movieId row ≠ k).
  { intros l k Hk row Hrow <-. apply Hk, list_elem_of_fmap. by exists row. }
  destruct (fs w !! cache_file) as [node|] eqn:Hfile.
  { unfold ApiClient.map_movielens_to_tmdb, bind, os_path_exists, json_load_file
      in Hrun.
    rewrite Hfile in Hrun. rewrite bool_decide_true in Hrun by (by eexists).
    cbv beta iota in Hrun. rewrite Hfile in Hrun.
    by destruct node as [|[document|]]. }
  rewrite (map_movielens_builds _ _ _ _ Hfile) in Hrun.
  destruct (map_rows _ ∅ w) as [[final|e] wend] eqn:Hrows; [|done].
  assert (final = mapping) as ->.
  { by destruct (json_dump_file final cache_file wend) as [[[]|e] w2];
      inversion Hrun. }
  clear Hrun.
  rewrite map_rows_app in Hrows.
  destruct (map_rows pre ∅ w) as [[m0|e] w0] eqn:Hpre; [|done].
  cbn [ApiClient.map_rows] in Hrows. unfold bind at 1 in Hrows.
  destruct (map_row first_row m0 w0) as [[m1|e] w1] eqn:Hrow1; [|done].
  rewrite map_rows_app in Hrows.
  destruct (map_rows between m1 w1) as [[m2|e] w2] eqn:Hmid; [|done].
  cbn [ApiClient.map_rows] in Hrows. unfold bind at 1 in Hrows.
  destruct (map_row second_row m2 w2) as [[m3|e] w3] eqn:Hrow2; [|done].
  (* the one search *)
  destruct (map_row_returns _ _ _ _ _ _ _ Hrow1) as (results & ws & Hsearch1 & _).
  assert (Hcached : lru_find (first_piece (py_split " (" (title first_row)))
                      (search_movie_cache w2) = Some results).
  { eapply lru_find_take.
    eapply (map_rows_keeps _ _ _ _ _ _ _ 1 Hmid); [lia|].
    rewrite (map_row_cache _ _ _ _ _ Hrow1).
    eapply search_movie_stores. rewrite Hsearch1. reflexivity. }
  rewrite Htitle in Hcached.
  assert (Hsearch2 := search_movie_hit TMDB_API_KEY transport _ _ _ Hcached).
  rewrite (map_row_stores _ _ _ _ _ _ _ Hrow1 Hsearch1) in *.
  rewrite (map_row_stores _ _ _ _ _ _ _ Hrow2 Hsearch2) in *.
  (* the two keys in the returned mapping *)
  rewrite (map_rows_other_key _ _ _ _ _ _ _ (movieId first_row) Hrows)
    by (by apply Hother).
  rewrite (map_rows_other_key _ _ _ _ _ _ _ (movieId second_row) Hrows)
    by (by apply Hother).
  assert (H0a : m0 !! movieId first_row = None).
  { rewrite (map_rows_other_key _ _ _ _ _ _ _ (movieId first_row) Hpre)
      by (by apply Hother). apply lookup_empty. }
  assert (H0b : m0 !! movieId second_row = None).
  { rewrite (map_rows_other_key _ _ _ _ _ _ _ (movieId second_row) Hpre)
      by (by apply Hother). apply lookup_empty. }
  assert (H2a := map_rows_other_key _ _ _ _ _ _ _ (movieId first_row) Hmid
                   (Hother _ _ Ha2)).
  assert (H2b := map_rows_other_key _ _ _ _ _ _ _ (movieId second_row) Hmid
                   (Hother _ _ Hb2)).
  destruct (first_id (value results)) as [id|].
  - rewrite lookup_insert_eq, lookup_insert_ne, H2a, lookup_insert_eq by done.
    done.
  - by rewrite H2a, H2b, H0a, H0b.
Qed.

End Collisions.

Lemma mapping_same_title_same_id_witness :
  ∃ mapping,
    (map_movielens_to_tmdb "k" finds_toy_story cinderellas (start processed)).1
      = Ret (Built mapping) ∧
    mapping !! 1022 = mapping !! 132046.
Proof.
  set (run := map_movielens_to_tmdb "k" finds_toy_story cinderellas (start processed)).
  assert (Hrun : run = (Ret (Built {[ 1022 := JInt 862; 1 := JInt 862;
                                       132046 := JInt 862 ]}), run.2))
    by (vm_compute; reflexivity).
  eexists. split; [by rewrite Hrun|].
  refine (mapping_same_title_same_id "k" finds_toy_story []
            (MovieRow 1022 "Cinderella (1950)" "Animation|Children")
            [MovieRow 1 "Toy Story (1995)" "Adventure|Animation"]
            (MovieRow 132046 "Cinderella (2015)" "Drama|Fantasy") []
            (start processed) _ run.2 Hrun _ _ _).
  - reflexivity.
  - vm_compute. lia.
  - apply (bool_decide_unpack (NoDup (movieId <$> cinderellas))).
    vm_compute. exact I.
Defined.

(** *** The least recently used entry is the one that goes *)

Section Recency.

Variable TMDB_API_KEY : string.
Variable transport : nat → string → gmap string string → outcome.

Local Abbreviation search_movie := (search_movie TMDB_API_KEY transport).
Local Abbreviation search_movie_body := (search_movie_body TMDB_API_KEY transport).
Local Abbreviation search_many := (search_many TMDB_API_KEY transport).

Lemma keys_before_sublist key (cache : list (string * obj)) :
  keys_before key cache `sublist_of` cache.*1.
Proof.
  induction cache as [|[k x] cache IH]; [done|]. cbn.
  destruct (String.eqb k key); [apply sublist_nil_l | by apply sublist_skip].
Qed.

Lemma keys_before_filter key other (cache : list (string * obj)) x :
  key ≠ other →
  x ∈ keys_before key (filter (λ e, e.1 ≠ other) cache) →
  x ∈ keys_before key cache.
Proof.
  intros Hne. induction cache as [|[k y] cache IH]; [done|].
  destruct (decide (k = other)) as [->|Hk].
  - rewrite filter_cons_False by (cbn; tauto). cbn.
    rewrite (proj2 (String.eqb_neq other key)) by done.
    intros Hx. right. by apply IH.
  - rewrite filter_cons_True by done. cbn.
    destruct (String.eqb k key); [done|].
    intros [->|Hx]%elem_of_cons; [by left | right; by apply IH].
Qed.

Lemma keys_before_take key n (cache : list (string * obj)) x :
  x ∈ keys_before key (take n cache) → x ∈ keys_before key cache.
Proof.
  revert n. induction cache as [|[k y] cache IH]; intros n.
  - by rewrite take_nil.
  - destruct n as [|n]; [by intros ?%elem_of_nil|]. cbn.
    destruct (String.eqb k key); [done|].
    intros [->|Hx]%elem_of_cons; [by left | right; by eapply IH].
Qed.

Lemma lru_find_within key v (cache : list (string * obj)) :
  lru_find key cache = Some v →
  lru_find key (take (S (length (keys_before key cache))) cache) = Some v.
Proof.
  induction cache as [|[k y] cache IH]; [done|]. cbn [keys_before lru_find].
  destruct (String.eqb k key) eqn:Hk; cbn [length take lru_find]; rewrite Hk;
    [done | apply IH].
Qed.

(** Titles without repetition, all of them among [allowed], are no
    more than the distinct titles of [allowed]. *)
Lemma length_distinct (l allowed : list string) :
  NoDup l → (∀ x, x ∈ l → x ∈ allowed) →
  (length l ≤ length (remove_dups allowed))%nat.
Proof.
  intros Hdup Hin. apply submseteq_length, NoDup_submseteq; [done|].
  intros x Hx. apply elem_of_remove_dups. by apply Hin.
Qed.

(** A search of the title itself, or of an allowed title, keeps the
    title held, as long as the allowed titles are too few to fill the
    cache. *)
Lemma search_movie_holds key v allowed other w :
  (length (remove_dups allowed) < MAXSIZE)%nat →
  other = key ∨ other ∈ allowed →
  held key v allowed (search_movie_cache w) →
  held key v allowed (search_movie_cache (search_movie other w).2).
Proof.
  intros Hfew Hother (Hfound & Hok & Hahead).
  split; [|split; [by apply search_movie_ok|]].
  - unfold ApiClient.search_movie.
    destruct (lru_find other (search_movie_cache w)) as [x|] eqn:Hfind.
    + cbn. destruct (String.eqb other key) eqn:Hk.
      * apply String.eqb_eq in Hk as ->. congruence.
      * apply String.eqb_neq in Hk.
        apply (lru_find_take _ _ (length (search_movie_cache w))).
        apply (lru_find_filter TMDB_API_KEY transport); [congruence|].
        by rewrite take_ge.
    + assert (Hne : other ≠ key) by (intros ->; congruence).
      assert (Hcache := search_movie_body_cache TMDB_API_KEY transport other w).
      destruct (search_movie_body other w) as [[x|e] w1];
        cbn [snd] in Hcache; unfold with_cache; cbn [snd search_movie_cache];
        rewrite Hcache; [|done].
      destruct Hother as [->|Hallowed]; [done|].
      assert (Hroom : (S (S (length (keys_before key (search_movie_cache w))))
                       ≤ MAXSIZE)%nat).
      { assert (length (other :: keys_before key (search_movie_cache w))
                ≤ length (remove_dups allowed))%nat; [|cbn in *; lia].
        apply length_distinct.
        - apply NoDup_cons. split.
          + intros Hin. apply (lru_find_None _ _ Hfind).
            eapply elem_of_sublist; [exact Hin | apply keys_before_sublist].
          + eapply sublist_NoDup; [apply Hok | apply keys_before_sublist].
        - intros y [->|Hy]%elem_of_cons; [done | by apply Hahead]. }
      unfold lru_store. eapply lru_find_take_le; [exact Hroom|].
      cbn [take lru_find].
      rewrite (proj2 (String.eqb_neq _ _) Hne). by apply lru_find_within.
  - intros y. unfold ApiClient.search_movie.
    destruct (lru_find other (search_movie_cache w)) as [x|] eqn:Hfind.
    + cbn. destruct (String.eqb other key) eqn:Hk; [by intros ?%elem_of_nil|].
      apply String.eqb_neq in Hk.
      intros [->|Hy]%elem_of_cons.
      * by destruct Hother as [->|?].
      * apply Hahead. eapply keys_before_filter; [|exact Hy]. congruence.
    + assert (Hne : other ≠ key) by (intros ->; congruence).
      assert (Hcache := search_movie_body_cache TMDB_API_KEY transport other w).
      destruct (search_movie_body other w) as [[x|e] w1];
        cbn [snd] in Hcache; unfold with_cache; cbn [snd search_movie_cache];
        rewrite Hcache; [|apply Hahead].
      unfold lru_store. intros Hy%keys_before_take. revert Hy. cbn.
      rewrite (proj2 (String.eqb_neq _ _) Hne).
      intros [->|Hy]%elem_of_cons; [by destruct Hother as [->|?] | by apply Hahead].
Qed.

Lemma search_many_holds key v allowed others w :
  (length (remove_dups allowed) < MAXSIZE)%nat →
  (∀ other, other ∈ others → other = key ∨ other ∈ allowed) →
  held key v allowed (search_movie_cache w) →
  held key v allowed (search_movie_cache (search_many others w)).
Proof.
  intros Hfew. revert w. induction others as [|other others IH]; intros w Hin Hheld;
    [done|].
  cbn [ApiClient.search_many fold_left]. apply IH.
  - intros o Ho. apply Hin. by right.
  - apply search_movie_holds; [done | apply Hin; by left | done].
Qed.

(** X28: the cache forgets by recency, not by the number of calls.
    Once [search_movie] has returned for a title, any later search of
    it returns the same object with no request, however many searches
    were made in between, provided they were of fewer than 500
    distinct other titles. *)
Theorem search_movie_remembers title others w v w1 :
  lru_ok (search_movie_cache w) →
  search_movie title w = (Ret v, w1) →
  (length (remove_dups (filter (λ other, other ≠ title) others)) < MAXSIZE)%nat →
  ∃ w3,
    search_movie title (search_many others w1) = (Ret v, w3) ∧
    sent w3 = sent (search_many others w1) ∧
    trace w3 = trace (search_many others w1).
Proof.
  intros Hok Hfirst Hfew.
  assert (Hheld : held title v (filter (λ other, other ≠ title) others)
                    (search_movie_cache w1)).
  { assert (Hok1 := search_movie_ok TMDB_API_KEY transport title w Hok).
    assert (Hstored := search_movie_stores _ _ _ _ _ _ Hfirst).
    rewrite Hfirst in Hok1. cbn [snd] in Hok1.
    split; [by eapply lru_find_take|]. split; [done|].
    destruct (search_movie_cache w1) as [|[k x] c]; [done|].
    cbn in Hstored |- *. destruct (String.eqb k title); [|done].
    by intros y ?%elem_of_nil. }
  apply (search_many_holds _ _ _ others) in Hheld as (Hfound & _); [|done|].
  - rewrite (search_movie_hit _ _ _ _ _ Hfound). eexists. by split.
  - intros other Hin. destruct (decide (other = title)); [by left|].
    right. by apply list_elem_of_filter.
Qed.

End Recency.

Lemma search_movie_remembers_witness :
  let first := search_movie "k" finds_toy_story "Toy Story" (start ∅) in
  ∃ w3,
    search_movie "k" finds_toy_story "Toy Story"
      (search_many "k" finds_toy_story two_titles_often first.2)
    = (Ret (Obj 1 (JArr [JObj {[ "id" := JInt 862 ]}])), w3) ∧
    length two_titles_often = 600%nat.
Proof.
  intros first.
  destruct (search_movie_remembers "k" finds_toy_story "Toy Story" two_titles_often
              (start ∅) (Obj 1 (JArr [JObj {[ "id" := JInt 862 ]}])) first.2)
    as (w3 & Hrun & _).
  - split; [constructor | cbn; lia].
  - vm_compute. reflexivity.
  - vm_compute. lia.
  - exists w3. split; [exact Hrun | reflexivity].
Defined.

End ClientFacts.

(** ** Properties of the other two lookups of api_client.py *)

Module LookupsFacts.
Import ApiClient ApiClientFacts ClientNotions Lookups.

Local Open Scope string_scope.
Local Open Scope Z_scope.

Section Facts.

Variable TMDB_API_KEY : string.
Variable transport : nat → string → gmap string string → outcome.

Local Abbreviation attempts := (attempts transport).
Local Abbreviation _handle_request := (_handle_request TMDB_API_KEY transport).
Local Abbreviation entered := (entered TMDB_API_KEY).
Local Abbreviation get_movie_details := (get_movie_details TMDB_API_KEY transport).
Local Abbreviation get_recommendations := (get_recommendations TMDB_API_KEY transport).

Ltac worlds :=
  unfold with_sent, with_trace, with_heap, with_fresh, with_cache, with_fs;
  cbn [trace sent heap fresh search_movie_cache fs];
  rewrite <- ?app_assoc; cbn [app].

Local Abbreviation key_query := (key_query TMDB_API_KEY).

Lemma none_query w : query (params_ref None w) (entered None w) = key_query.
Proof.
  unfold query. cbn. rewrite lookup_alter_eq, lookup_insert_eq. cbn.
  by rewrite insert_empty.
Qed.

(** Without parameters of the caller: three failed requests give
    [None]. *)
Lemma handle_request_down endpoint w :
  (∀ i, (i < 3)%nat →
        ∃ what, transport (sent w + i) (BASE_URL ++ endpoint) key_query = Fails what) →
  ∃ events,
    _handle_request endpoint None w =
      (Ret JNull, after_requests 3 events (entered None w)).
Proof.
  intros Hdown. rewrite handle_request_unfold.
  set (url := BASE_URL ++ endpoint). set (l := params_ref None w).
  set (w1 := entered None w).
  assert (Hq : query l w1 = key_query) by apply none_query.
  assert (Hs : sent w1 = sent w) by done.
  destruct (Hdown 0%nat) as [what0 H0]; [lia|].
  destruct (Hdown 1%nat) as [what1 H1]; [lia|].
  destruct (Hdown 2%nat) as [what2 H2]; [lia|].
  fold url in H0, H1, H2. rewrite <- Hq, <- Hs in H0, H1, H2.
  rewrite Nat.add_0_r in H0. rewrite Nat.add_1_r in H1.
  replace (sent w1 + 2)%nat with (S (S (sent w1))) in H2 by lia.
  assert (Hloop : ∃ events, retried transport 3 url l w1 =
                            Some (after_requests 3 events w1)).
  { cbn [retried].
    rewrite (iteration_fails _ url l w1 what0 H0).
    rewrite (iteration_fails _ url l (after_requests 1 _ w1) what1 H1).
    rewrite after_requests_compose.
    rewrite (iteration_fails _ url l (after_requests 2 _ w1) what2 H2).
    rewrite after_requests_compose. eauto. }
  destruct Hloop as [events Hloop].
  change (Z.to_nat RETRIES) with 3%nat.
  rewrite (attempts_exhausted _ _ _ _ _ _ Hloop), after_requests_compose.
  eauto.
Qed.

(** Without parameters of the caller: a first answer 200 gives its
    body after that one request. *)
Lemma handle_request_first_ok endpoint w r body :
  transport (sent w) (BASE_URL ++ endpoint) key_query = Responds r →
  status_code r = 200 → json_body r = Some body →
  _handle_request endpoint None w =
    (Ret body,
     after_requests 1 [Get (BASE_URL ++ endpoint) key_query;
                       Log DEBUG (RequestURL (url r))] (entered None w)).
Proof.
  intros Hr H200 Hbody. rewrite handle_request_unfold.
  rewrite <- (none_query w) in Hr |- *.
  change (Z.to_nat RETRIES) with 3%nat. cbn [ApiClient.attempts].
  unfold bind at 1.
  by rewrite (iteration_ok _ _ (params_ref None w) (entered None w) r body Hr H200 Hbody).
Qed.

(** Without parameters of the caller: a first answer that is neither
    200 nor 429 gives [None] after that one request. *)
Lemma handle_request_first_error endpoint w r :
  transport (sent w) (BASE_URL ++ endpoint) key_query = Responds r →
  status_code r ≠ 200 → status_code r ≠ 429 →
  _handle_request endpoint None w =
    (Ret JNull,
     after_requests 1 [Get (BASE_URL ++ endpoint) key_query;
                       Log DEBUG (RequestURL (url r));
                       Log ERROR (ApiError (status_code r) (text r))]
       (entered None w)).
Proof.
  intros Hr H200 H429. rewrite handle_request_unfold.
  rewrite <- (none_query w) in Hr |- *.
  change (Z.to_nat RETRIES) with 3%nat. cbn [ApiClient.attempts].
  unfold bind at 1.
  by rewrite (iteration_error _ _ (params_ref None w) (entered None w) r Hr H200 H429).
Qed.

Lemma lru_miss_get {V} (key : Z) (v : V) cache :
  lru_get key (lru_miss key v cache) = Some v.
Proof. cbn. by rewrite Z.eqb_refl. Qed.

(** X22: [get_movie_details] stores [None] too.  When the three
    requests for an identifier that is not cached fail, it returns
    [None], and the next call for that identifier returns [None] again
    without any request, whatever the network would answer by then. *)
Theorem get_movie_details_caches_none tmdb_id p :
  lru_get tmdb_id (get_movie_details_cache p) = None →
  (∀ i, (i < 3)%nat →
        ∃ what, transport (sent (world_of p) + i) (details_url tmdb_id) key_query
                = Fails what) →
  ∃ p' p'',
    get_movie_details tmdb_id p = (Ret JNull, p') ∧
    sent (world_of p') = (sent (world_of p) + 3)%nat ∧
    get_movie_details tmdb_id p' = (Ret JNull, p'') ∧
    world_of p'' = world_of p'.
Proof.
  intros Hmiss Hdown.
  destruct (handle_request_down ("/movie/" ++ pretty tmdb_id) (world_of p) Hdown)
    as [events Hrun].
  unfold Lookups.get_movie_details at 1. rewrite Hmiss.
  unfold get_movie_details_body. rewrite Hrun.
  eexists _, _. split; [reflexivity|]. split; [cbn; lia|].
  unfold Lookups.get_movie_details. cbn [get_movie_details_cache].
  rewrite lru_miss_get. by split.
Qed.

(** X23: when the first answer for an identifier that is not cached is
    200, [get_movie_details] returns the decoded body after that one
    request, made to [/movie/<id>] with the key as only parameter; the
    next call for the identifier returns the same body with no request. *)
Theorem get_movie_details_returns_body tmdb_id p r body :
  lru_get tmdb_id (get_movie_details_cache p) = None →
  transport (sent (world_of p)) (details_url tmdb_id) key_query = Responds r →
  status_code r = 200 → json_body r = Some body →
  ∃ p' p'',
    get_movie_details tmdb_id p = (Ret body, p') ∧
    trace (world_of p') =
      (trace (world_of p) ++
       [Get (details_url tmdb_id) key_query; Log DEBUG (RequestURL (url r))])%list ∧
    get_movie_details tmdb_id p' = (Ret body, p'') ∧
    world_of p'' = world_of p'.
Proof.
  intros Hmiss Hr H200 Hbody.
  assert (Hrun := handle_request_first_ok ("/movie/" ++ pretty tmdb_id) (world_of p)
                    r body Hr H200 Hbody).
  unfold Lookups.get_movie_details at 1. rewrite Hmiss.
  unfold get_movie_details_body. rewrite Hrun.
  eexists _, _. split; [reflexivity|]. split; [by unfold after_requests; worlds|].
  unfold Lookups.get_movie_details. cbn [get_movie_details_cache].
  rewrite lru_miss_get. by split.
Qed.

(** X24: when the first answer for an identifier that is not cached is
    200 with a JSON object, [get_recommendations] returns the value of
    its ["results"] entry, or a new empty list when there is none,
    after one request to [/movie/<id>/recommendations], and stores it. *)
Theorem get_recommendations_results tmdb_id p r fields :
  lru_get tmdb_id (get_recommendations_cache p) = None →
  transport (sent (world_of p)) (recommendations_url tmdb_id) key_query = Responds r →
  status_code r = 200 → json_body r = Some (JObj fields) →
  ∃ o p',
    get_recommendations tmdb_id p = (Ret o, p') ∧
    value o = default (JArr []) (fields !! "results") ∧
    trace (world_of p') =
      (trace (world_of p) ++
       [Get (recommendations_url tmdb_id) key_query;
        Log DEBUG (RequestURL (url r))])%list ∧
    lru_get tmdb_id (get_recommendations_cache p') = Some o.
Proof.
  intros Hmiss Hr H200 Hbody.
  assert (Hrun := handle_request_first_ok
                    ("/movie/" ++ pretty tmdb_id ++ "/recommendations") (world_of p)
                    r _ Hr H200 Hbody).
  unfold Lookups.get_recommendations. rewrite Hmiss.
  unfold get_recommendations_body, bind. rewrite Hrun.
  assert (Hget : ∀ w2, ∃ o,
            (if truthy (JObj fields) then get_results (JObj fields)
             else new_obj (JArr [])) w2 = (Ret o, with_fresh (S (fresh w2)) w2) ∧
            value o = default (JArr []) (fields !! "results")).
  { intros w2. cbn [truthy get_results].
    destruct (fields !! "results") as [v|] eqn:Hresults.
    - assert (Hsize : Nat.eqb (size fields) 0 = false).
      { apply Nat.eqb_neq. intros Hzero. apply map_size_empty_iff in Hzero.
        by rewrite Hzero, lookup_empty in Hresults. }
      rewrite Hsize. cbn. by eexists.
    - destruct (negb _); cbn; by eexists. }
  match goal with
  | |- context [(if truthy _ then _ else _) ?w2] => destruct (Hget w2) as (o & -> & Hvalue)
  end.
  exists o. eexists. split; [reflexivity|]. split; [done|].
  split; [by unfold after_requests; worlds|]. apply lru_miss_get.
Qed.

(** X25: an answer that is neither 200 nor 429, as for an identifier
    the server does not know, makes [get_recommendations] return a new
    empty list after that one request, and the list is stored. *)
Theorem get_recommendations_of_unknown_id tmdb_id p r :
  lru_get tmdb_id (get_recommendations_cache p) = None →
  transport (sent (world_of p)) (recommendations_url tmdb_id) key_query = Responds r →
  status_code r ≠ 200 → status_code r ≠ 429 →
  ∃ o p',
    get_recommendations tmdb_id p = (Ret o, p') ∧ value o = JArr [] ∧
    sent (world_of p') = S (sent (world_of p)) ∧
    lru_get tmdb_id (get_recommendations_cache p') = Some o.
Proof.
  intros Hmiss Hr H200 H429.
  assert (Hrun := handle_request_first_error
                    ("/movie/" ++ pretty tmdb_id ++ "/recommendations") (world_of p)
                    r Hr H200 H429).
  unfold Lookups.get_recommendations. rewrite Hmiss.
  unfold get_recommendations_body, bind. rewrite Hrun. cbn [truthy new_obj].
  eexists _, _. split; [reflexivity|]. split; [done|].
  split; [by unfold after_requests; worlds|]. apply lru_miss_get.
Qed.

(** X26: the same answer makes [get_movie_details] return [None]
    after that one request, and [None] is stored for the identifier. *)
Theorem get_movie_details_of_unknown_id tmdb_id p r :
  lru_get tmdb_id (get_movie_details_cache p) = None →
  transport (sent (world_of p)) (details_url tmdb_id) key_query = Responds r →
  status_code r ≠ 200 → status_code r ≠ 429 →
  ∃ p',
    get_movie_details tmdb_id p = (Ret JNull, p') ∧
    sent (world_of p') = S (sent (world_of p)) ∧
    lru_get tmdb_id (get_movie_details_cache p') = Some JNull.
Proof.
  intros Hmiss Hr H200 H429.
  assert (Hrun := handle_request_first_error ("/movie/" ++ pretty tmdb_id)
                    (world_of p) r Hr H200 H429).
  unfold Lookups.get_movie_details. rewrite Hmiss.
  unfold get_movie_details_body. rewrite Hrun.
  eexists. split; [reflexivity|].
  split; [by unfold after_requests; worlds|]. apply lru_miss_get.
Qed.

End Facts.

Lemma get_movie_details_caches_none_witness :
  ∃ p' p'',
    get_movie_details "k" down_then_up 862 (fresh_process ∅) = (Ret JNull, p') ∧
    get_movie_details "k" down_then_up 862 p' = (Ret JNull, p'') ∧
    sent (world_of p'') = 3%nat.
Proof.
  destruct (get_movie_details_caches_none "k" down_then_up 862 (fresh_process ∅))
    as (p' & p'' & Hfirst & Hsent & Hsecond & Hsame).
  { reflexivity. }
  { intros i Hi. exists "ConnectionError". unfold down_then_up.
    change (sent (world_of (fresh_process ∅)) + i)%nat with i.
    by rewrite (proj2 (Nat.ltb_lt _ _) Hi). }
  exists p', p''. split; [done|]. split; [done|]. by rewrite Hsame, Hsent.
Defined.

Lemma get_movie_details_returns_body_witness :
  ∃ p' p'',
    get_movie_details "k" knows_toy_story 862 (fresh_process ∅)
      = (Ret toy_story_details, p') ∧
    get_movie_details "k" knows_toy_story 862 p' = (Ret toy_story_details, p'') ∧
    world_of p'' = world_of p'.
Proof.
  destruct (get_movie_details_returns_body "k" knows_toy_story 862 (fresh_process ∅)
              (Response 200 ∅ EmptyString (details_url 862) (Document toy_story_details))
              toy_story_details)
    as (p' & p'' & Hfirst & _ & Hsecond & Hsame);
    [reflexivity | reflexivity | reflexivity | reflexivity |].
  by exists p', p''.
Defined.

Lemma get_recommendations_results_witness :
  ∃ o p',
    get_recommendations "k" finds_toy_story 862 (fresh_process ∅) = (Ret o, p') ∧
    value o = JArr [JObj {[ "id" := JInt 862 ]}].
Proof.
  destruct (get_recommendations_results "k" finds_toy_story 862 (fresh_process ∅)
              (Response 200 ∅ EmptyString (recommendations_url 862) (Document toy_story))
              {[ "results" := JArr [JObj {[ "id" := JInt 862 ]}] ]})
    as (o & p' & Hrun & Hvalue & _);
    [reflexivity | reflexivity | reflexivity | reflexivity |].
  exists o, p'. split; [done|]. rewrite Hvalue. vm_compute. reflexivity.
Defined.

Lemma get_recommendations_of_unknown_id_witness :
  ∃ o p',
    get_recommendations "k" not_found 0 (fresh_process ∅) = (Ret o, p') ∧
    value o = JArr [].
Proof.
  destruct (get_recommendations_of_unknown_id "k" not_found 0 (fresh_process ∅)
              (Response 404 ∅ "Not Found" (recommendations_url 0) Undecodable))
    as (o & p' & Hrun & Hvalue & _);
    [reflexivity | reflexivity | done | done |].
  by exists o, p'.
Defined.

Lemma get_movie_details_of_unknown_id_witness :
  ∃ p',
    get_movie_details "k" not_found 0 (fresh_process ∅) = (Ret JNull, p') ∧
    lru_get 0 (get_movie_details_cache p') = Some JNull.
Proof.
  destruct (get_movie_details_of_unknown_id "k" not_found 0 (fresh_process ∅)
              (Response 404 ∅ "Not Found" (details_url 0) Undecodable))
    as (p' & Hrun & _ & Hcached);
    [reflexivity | reflexivity | done | done |].
  by exists p'.
Defined.

End LookupsFacts.
